(** * user_crud: the User entity and the in-memory CRUD manager

    A shallow embedding of [src/user_crud/models.py] and
    [src/user_crud/crud.py], followed by the properties of the
    specification that concern them.

    Conventions of the embedding.
    - A Python [str] is a [string]; every character stands for one code
      point below 256, so [isspace] and [lower_char] are Python's
      [str.isspace] and [str.lower] on that range.
    - A Python [int] is a [Z]; a [datetime] is a [Z] (a clock reading).
    - [uuid.uuid4()] and [datetime.now()] read the environment: the 128-bit
      number drawn and the clock reading are arguments of the operations.
    - Both errors of the code are [ValueError]s, told apart by their
      message; the type [error] has one constructor per message.
    - The manager's [dict] keeps insertion order: it is an association
      list, see [Module Dict]. *)

From Stdlib Require Import List String Ascii ZArith NArith Bool Lia.
Import ListNotations.
Local Open Scope string_scope.

(** ** Python strings *)

Module Py.

(** [str.isspace] on one character: TAB..CR, FS..US, SPACE, NEL, NBSP. *)
Definition isspace (c : ascii) : bool :=
  let n := N_of_ascii c in
  ((9 <=? n) && (n <=? 13) || (28 <=? n) && (n <=? 32)
   || (n =? 133) || (n =? 160))%N.

(** [str.lower] on one character: A..Z and the capitals of Latin-1
    (all of 192..222 but the multiplication sign, 215). *)
Definition lower_char (c : ascii) : ascii :=
  let n := N_of_ascii c in
  if ((65 <=? n) && (n <=? 90)
      || (192 <=? n) && (n <=? 222) && negb (n =? 215))%N
  then ascii_of_N (n + 32) else c.

Fixpoint lower (s : string) : string :=
  match s with
  | EmptyString => EmptyString
  | String c r => String (lower_char c) (lower r)
  end.

Fixpoint lstrip (s : string) : string :=
  match s with
  | EmptyString => EmptyString
  | String c r => if isspace c then lstrip r else s
  end.

Fixpoint rstrip (s : string) : string :=
  match s with
  | EmptyString => EmptyString
  | String c r =>
      match rstrip r with
      | EmptyString => if isspace c then EmptyString else String c EmptyString
      | r' => String c r'
      end
  end.

(** [s.strip()] *)
Definition strip (s : string) : string := rstrip (lstrip s).

(** [sub in s] *)
Fixpoint contains (sub s : string) : bool :=
  prefix sub s ||
  match s with
  | EmptyString => false
  | String _ r => contains sub r
  end.

(** Truth value of a string: [not s] is [negb (truthy s)]. *)
Definition truthy (s : string) : bool :=
  match s with EmptyString => false | String _ _ => true end.

(** [email.strip().lower()], written three times in the source. *)
Definition strip_lower (s : string) : string := lower (strip s).

(** The thirty-two hexadecimal digits of a 128-bit number, most
    significant first, and [str] of a [UUID]: groups of 8-4-4-4-12. *)
Definition hexdigit (d : N) : ascii :=
  if (d <? 10)%N then ascii_of_N (48 + d) else ascii_of_N (87 + d).

Definition hex (width : nat) (n : N) : list ascii :=
  map (fun i => hexdigit ((n / 16 ^ N.of_nat (width - 1 - i)) mod 16)%N)
      (seq 0 width).

Definition uuid_str (n : N) : string :=
  let h := hex 32 (n mod 2 ^ 128)%N in
  string_of_list_ascii
    (firstn 8 h ++ "-"%char :: firstn 4 (skipn 8 h) ++ "-"%char
     :: firstn 4 (skipn 12 h) ++ "-"%char :: firstn 4 (skipn 16 h)
     ++ "-"%char :: skipn 20 h).

End Py.

(** ** Errors *)

(** [ValueError(msg)]: the three messages of [User.__post_init__] are the
    specification's InvalidField, the message of the manager is its
    DuplicateEmail. *)
Inductive invalid_field : Type :=
| EmptyName      (* "El nombre no puede estar vacio" *)
| BadEmail       (* "Email invalido" *)
| AgeOutOfRange. (* "La edad debe estar entre 0 y 150 anios" *)

Inductive error : Type :=
| InvalidField (why : invalid_field)
| DuplicateEmail (email : string). (* "El email ... ya esta en uso" *)

Definition datetime := Z.
Bind Scope Z_scope with datetime.

(** ** models.py *)

Module User.

Record t : Type := mk {
  id : string;
  name : string;
  email : string;
  age : Z;
  created_at : datetime;
  updated_at : option datetime
}.

(** [__post_init__]: the three checks, in the order of the source. *)
Definition post_init (self : t) : error + t :=
  if negb (Py.truthy (name self))
     || (String.length (Py.strip (name self)) =? 0)%nat
  then inl (InvalidField EmptyName)
  else if negb (Py.truthy (email self))
          || negb (Py.contains "@" (email self))
  then inl (InvalidField BadEmail)
  else if (age self <? 0)%Z || (age self >? 150)%Z
  then inl (InvalidField AgeOutOfRange)
  else inr self.

(** The dataclass constructor [User(...)]: build, then [__post_init__]. *)
Definition new (id name email : string) (age : Z) (created_at : datetime)
           (updated_at : option datetime) : error + t :=
  post_init (mk id name email age created_at updated_at).

(** [User.create(name, email, age)]; [uuid4] and [now] come from the
    environment. *)
Definition create (uuid4 : N) (now : datetime)
           (name email : string) (age : Z) : error + t :=
  new (Py.uuid_str uuid4) (Py.strip name) (Py.lower (Py.strip email)) age
      now None.

(** The keyword arguments of [update]: the three recognised fields, each
    supplied or not, and the names of any other keywords supplied. *)
Record kwargs : Type := mkKw {
  kw_name : option string;
  kw_email : option string;
  kw_age : option Z;
  kw_others : list string
}.

(** [updates = {k: v for k, v in kwargs.items() if k in allowed_fields}]:
    the other keywords are dropped. *)
Definition updates (kw : kwargs) : kwargs :=
  mkKw (kw_name kw) (kw_email kw) (kw_age kw) [].

(** Truth value of the dict [updates]: it has a key. *)
Definition nonempty (kw : kwargs) : bool :=
  match kw_name kw, kw_email kw, kw_age kw, kw_others kw with
  | None, None, None, [] => false
  | _, _, _, _ => true
  end.

(** [d.get(key, default)] *)
Definition get {A : Type} (slot : option A) (default : A) : A :=
  match slot with Some v => v | None => default end.

(** [self.update] applied to keyword arguments *)
Definition update (now : datetime) (self : t) (kw : kwargs) : error + t :=
  let updates := updates kw in
  if nonempty updates then
    new (id self)
        (get (kw_name updates) (name self))
        (get (kw_email updates) (email self))
        (get (kw_age updates) (age self))
        (created_at self)
        (Some now)
  else inr self.

End User.

(** ** The dict of the manager *)

(** A Python [dict] from [str] to [User], in insertion order.  The
    operations keep the keys distinct ([Dict.wf]), as a [dict] does. *)
Module Dict.

Definition t : Type := list (string * User.t).

(** [d.get(k)] *)
Fixpoint get (k : string) (d : t) : option User.t :=
  match d with
  | [] => None
  | (k', v) :: r => if String.eqb k' k then Some v else get k r
  end.

(** [k in d] *)
Fixpoint mem (k : string) (d : t) : bool :=
  match d with
  | [] => false
  | (k', _) :: r => String.eqb k' k || mem k r
  end.

(** [d[k] = v]: an existing key keeps its place, a new one goes last. *)
Fixpoint set (k : string) (v : User.t) (d : t) : t :=
  match d with
  | [] => [(k, v)]
  | (k', v') :: r =>
      if String.eqb k' k then (k', v) :: r else (k', v') :: set k v r
  end.

(** [del d[k]] *)
Fixpoint del (k : string) (d : t) : t :=
  match d with
  | [] => []
  | (k', v') :: r => if String.eqb k' k then r else (k', v') :: del k r
  end.

Definition keys (d : t) : list string := map fst d.
Definition values (d : t) : list User.t := map snd d.
Definition items (d : t) : list (string * User.t) := d.
Definition len (d : t) : nat := List.length d.

Definition wf (d : t) : Prop := NoDup (keys d).

End Dict.

(** ** crud.py *)

Module UserCRUD.

Record t : Type := mk { _users : Dict.t }.

(** [UserCRUD()] *)
Definition init : t := mk [].

(** A method runs on the manager and either returns or raises; in both
    cases it leaves a manager behind. *)
Definition M (A : Type) : Type := t -> t * (error + A).

Definition ret {A} (a : A) : M A := fun s => (s, inr a).
Definition raise {A} (e : error) : M A := fun s => (s, inl e).
Definition bind {A B} (m : M A) (f : A -> M B) : M B :=
  fun s => match m s with
           | (s', inr a) => f a s'
           | (s', inl e) => (s', inl e)
           end.
Definition users : M Dict.t := fun s => (s, inr (_users s)).
Definition set_users (d : Dict.t) : M unit := fun _ => (mk d, inr tt).
(** A call into models.py: it cannot touch the manager. *)
Definition lift {A} (r : error + A) : M A := fun s => (s, r).

Declare Scope crud_scope.
Delimit Scope crud_scope with crud.
Notation "x <- m ;; k" := (bind m (fun x => k))
  (at level 61, m at next level, right associativity) : crud_scope.
Notation "m ;; k" := (bind m (fun _ => k))
  (at level 61, right associativity) : crud_scope.
Local Open Scope crud_scope.

(** [for x in xs: body(x)], where the body may raise. *)
Fixpoint for_each {A} (xs : list A) (body : A -> M unit) : M unit :=
  match xs with
  | [] => ret tt
  | x :: r => body x ;; for_each r body
  end.

(** [for x in xs: if p(x): return x] followed by [return None] *)
Fixpoint first_such {A} (p : A -> bool) (xs : list A) : option A :=
  match xs with
  | [] => None
  | x :: r => if p x then Some x else first_such p r
  end.

Definition create (uuid4 : N) (now : datetime)
           (name email : string) (age : Z) : M User.t :=
  user <- lift (User.create uuid4 now name email age) ;;
  d <- users ;;
  for_each (Dict.values d) (fun existing_user =>
    if String.eqb (User.email existing_user) (User.email user)
    then raise (DuplicateEmail (User.email user))
    else ret tt) ;;
  d <- users ;;
  set_users (Dict.set (User.id user) user d) ;;
  ret user.

Definition get_by_id (user_id : string) : M (option User.t) :=
  d <- users ;;
  ret (Dict.get user_id d).

Definition get_by_email (email : string) : M (option User.t) :=
  let email := Py.lower (Py.strip email) in
  d <- users ;;
  ret (first_such (fun user => String.eqb (User.email user) email)
                  (Dict.values d)).

Definition get_all : M (list User.t) :=
  d <- users ;;
  ret (Dict.values d).

(** [if not user] holds of [None] only: a [User] has neither [__bool__]
    nor [__len__], so every instance is true. *)
Definition update (now : datetime) (user_id : string) (kwargs : User.kwargs)
  : M (option User.t) :=
  d <- users ;;
  match Dict.get user_id d with
  | None => ret None
  | Some user =>
      match User.kw_email kwargs with
      | Some e =>
          let new_email := Py.lower (Py.strip e) in
          d <- users ;;
          for_each (Dict.items d) (fun '(uid, existing_user) =>
            if negb (String.eqb uid user_id)
               && String.eqb (User.email existing_user) new_email
            then raise (DuplicateEmail new_email)
            else ret tt)
      | None => ret tt
      end ;;
      updated_user <- lift (User.update now user kwargs) ;;
      d <- users ;;
      set_users (Dict.set user_id updated_user d) ;;
      ret (Some updated_user)
  end.

Definition delete (user_id : string) : M bool :=
  d <- users ;;
  if Dict.mem user_id d then
    set_users (Dict.del user_id d) ;;
    ret true
  else ret false.

Definition count : M nat :=
  d <- users ;;
  ret (Dict.len d).

Definition clear : M unit :=
  set_users [].

Definition exists_ (user_id : string) : M bool :=
  d <- users ;;
  ret (Dict.mem user_id d).

(** The manager a call leaves behind, and what it returned. *)
Definition after {A} (m : M A) (s : t) : t := fst (m s).
Definition result {A} (m : M A) (s : t) : error + A := snd (m s).

End UserCRUD.

(** ** Runs of the manager *)

(** The calls that can change a manager, with what each takes from its
    caller and from the environment. *)
Inductive call : Type :=
| Create (uuid4 : N) (now : datetime) (name email : string) (age : Z)
| Update (now : datetime) (user_id : string) (kwargs : User.kwargs)
| Delete (user_id : string)
| Clear.

Definition step (s : UserCRUD.t) (c : call) : UserCRUD.t :=
  match c with
  | Create uuid4 now name email age =>
      UserCRUD.after (UserCRUD.create uuid4 now name email age) s
  | Update now user_id kwargs =>
      UserCRUD.after (UserCRUD.update now user_id kwargs) s
  | Delete user_id => UserCRUD.after (UserCRUD.delete user_id) s
  | Clear => UserCRUD.after UserCRUD.clear s
  end.

Definition run (cs : list call) : UserCRUD.t := fold_left step cs UserCRUD.init.

(** A manager is reachable when some sequence of calls, failed ones
    included, leads to it from the empty manager. *)
Definition reachable (s : UserCRUD.t) : Prop := exists cs, run cs = s.

(** The recognised fields of an update, and the value a user has there. *)
Inductive field : Type := FName | FEmail | FAge.

Inductive value : Type := VStr (s : string) | VInt (z : Z).

Definition field_of (u : User.t) (f : field) : value :=
  match f with
  | FName => VStr (User.name u)
  | FEmail => VStr (User.email u)
  | FAge => VInt (User.age u)
  end.

(** The value the keyword arguments supply for a field, if any. *)
Definition supplied (kw : User.kwargs) (f : field) : option value :=
  match f with
  | FName => option_map VStr (User.kw_name kw)
  | FEmail => option_map VStr (User.kw_email kw)
  | FAge => option_map VInt (User.kw_age kw)
  end.

(** Every stored email is as [create] stores it: trimmed and lowercased. *)
Definition emails_normalized (s : UserCRUD.t) : Prop :=
  forall k u, In (k, u) (UserCRUD._users s) ->
              Py.strip_lower (User.email u) = User.email u.

(** The normalized emails of the stored entities, in the order of the
    collection; no two entries have the same one when the list has no
    duplicates. *)
Definition normalized_emails (d : Dict.t) : list string :=
  map (fun u => Py.strip_lower (User.email u)) (Dict.values d).

Definition emails_unique (s : UserCRUD.t) : Prop :=
  NoDup (normalized_emails (UserCRUD._users s)).

(** The test of the loop of [UserCRUD.update] on one item of the dict. *)
Definition clash (user_id new_email : string) (item : string * User.t)
  : bool :=
  negb (String.eqb (fst item) user_id)
  && String.eqb (User.email (snd item)) new_email.

(** A call whose [update], if it supplies an email, supplies it in
    normalized form. *)
Definition tidy (c : call) : Prop :=
  match c with
  | Update _ _ kwargs =>
      match User.kw_email kwargs with
      | Some e => Py.strip_lower e = e
      | None => True
      end
  | _ => True
  end.

(** Keys are distinct, every entity is stored under its id, stored emails
    are normalized and no two are the same. *)
Definition consistent (s : UserCRUD.t) : Prop :=
  Dict.wf (UserCRUD._users s) /\
  (forall k u, In (k, u) (UserCRUD._users s) -> User.id u = k) /\
  emails_normalized s /\
  emails_unique s.

(** ** Scenarios *)

(** The identifiers of the first and of the second user of a scenario. *)
Definition id1 : string := Py.uuid_str 1.
Definition id2 : string := Py.uuid_str 2.

Definition only_name (v : string) : User.kwargs :=
  User.mkKw (Some v) None None [].
Definition only_email (v : string) : User.kwargs :=
  User.mkKw None (Some v) None [].
Definition only_age (v : Z) : User.kwargs :=
  User.mkKw None None (Some v) [].
Definition no_fields (others : list string) : User.kwargs :=
  User.mkKw None None None others.

(** One user, as in [validate_fixes.py]. *)
Definition one_user : UserCRUD.t :=
  run [Create 1 100 "Test User" "test@example.com" 25].

(** One user of the greatest age, as [test_create_duplicate_email_fails]
    can draw it. *)
Definition one_old_user : UserCRUD.t :=
  run [Create 1 100 "Test User" "test@example.com" 150].

(** Two users, as in [validate_fixes.py]. *)
Definition two_users : UserCRUD.t :=
  run [Create 1 100 "User 1" "user1@example.com" 25;
       Create 2 200 "User 2" "user2@example.com" 30].

(** The second user then writes its own email in capitals. *)
Definition two_users_shouting : UserCRUD.t :=
  step two_users (Update 300 id2 (only_email "USER2@EXAMPLE.COM")).

(** A user writes its email with a capital, and a second user is created
    under the first spelling. *)
Definition respelled : list call :=
  [Create 1 100 "A" "a@x.com" 30;
   Update 200 id1 (only_email "A@x.com");
   Create 2 300 "B" "a@x.com" 20].

(** ** Batches *)

(** The arguments of one [create] call, with what the environment gives
    it. *)
Record creation : Type := mkCreation {
  c_uuid4 : N;
  c_now : datetime;
  c_name : string;
  c_email : string;
  c_age : Z
}.

Definition create_call (c : creation) : call :=
  Create (c_uuid4 c) (c_now c) (c_name c) (c_email c) (c_age c).

(** The entity the factory builds from valid arguments. *)
Definition created (c : creation) : User.t :=
  User.mk (Py.uuid_str (c_uuid4 c)) (Py.strip (c_name c))
          (Py.strip_lower (c_email c)) (c_age c) (c_now c) None.

(** The item of the dict that stores it. *)
Definition entry (c : creation) : string * User.t :=
  (Py.uuid_str (c_uuid4 c), created c).

(** The rules of [__post_init__], on the arguments of a [create] call. *)
Definition acceptable (c : creation) : Prop :=
  Py.strip (c_name c) <> "" /\ Py.contains "@" (c_email c) = true /\
  (0 <= c_age c <= 150)%Z.

(** * Properties *)

(** ** Characters and strings *)

Section PyFacts.

Import Py.

Ltac all_chars c := destruct c as [[] [] [] [] [] [] [] []]; reflexivity.

Lemma isspace_lower_char (c : ascii) : isspace (lower_char c) = isspace c.
Proof. all_chars c. Qed.

Lemma lower_char_idem (c : ascii) : lower_char (lower_char c) = lower_char c.
Proof. all_chars c. Qed.

Lemma lower_char_at (c : ascii) :
  Ascii.eqb "@" (lower_char c) = Ascii.eqb "@" c.
Proof. all_chars c. Qed.

Lemma isspace_not_at (c : ascii) :
  isspace c = true -> Ascii.eqb "@" c = false.
Proof.
  destruct (Ascii.eqb_spec "@" c) as [<- | _]; [discriminate | reflexivity].
Qed.

Lemma lower_idem (s : string) : lower (lower s) = lower s.
Proof.
  induction s as [| c r IH]; simpl; [reflexivity |].
  now rewrite lower_char_idem, IH.
Qed.

Lemma lstrip_lower (s : string) : lstrip (lower s) = lower (lstrip s).
Proof.
  induction s as [| c r IH]; simpl; [reflexivity |].
  rewrite isspace_lower_char. destruct (isspace c); [exact IH | reflexivity].
Qed.

Lemma rstrip_lower (s : string) : rstrip (lower s) = lower (rstrip s).
Proof.
  induction s as [| c r IH]; simpl; [reflexivity |].
  rewrite IH, isspace_lower_char.
  destruct (rstrip r); simpl; [destruct (isspace c) |]; reflexivity.
Qed.

Lemma strip_lower_comm (s : string) : strip (lower s) = lower (strip s).
Proof. unfold strip. now rewrite lstrip_lower, rstrip_lower. Qed.

Lemma rstrip_step (c : ascii) (r : string) :
  rstrip (String c r) =
  match rstrip r with
  | EmptyString => if isspace c then EmptyString else String c EmptyString
  | r' => String c r'
  end.
Proof. reflexivity. Qed.

Lemma rstrip_idem (s : string) : rstrip (rstrip s) = rstrip s.
Proof.
  induction s as [| c r IH]; simpl; [reflexivity |].
  destruct (rstrip r) as [| c' r'] eqn:E.
  - destruct (isspace c) eqn:Hc; simpl; [reflexivity | now rewrite Hc].
  - rewrite rstrip_step, IH. reflexivity.
Qed.

Lemma lstrip_head (s : string) :
  lstrip s = "" \/ exists c r, lstrip s = String c r /\ isspace c = false.
Proof.
  induction s as [| c r IH]; simpl; [now left |].
  destruct (isspace c) eqn:Hc; [exact IH | right; eauto].
Qed.

Lemma rstrip_cons (c : ascii) (r : string) :
  isspace c = false -> rstrip (String c r) = String c (rstrip r).
Proof. intros Hc. simpl. rewrite Hc. now destruct (rstrip r). Qed.

Lemma strip_idem (s : string) : strip (strip s) = strip s.
Proof.
  unfold strip. destruct (lstrip_head s) as [-> | (c & r & -> & Hc)].
  - reflexivity.
  - rewrite (rstrip_cons c r Hc). cbn [lstrip]. rewrite Hc.
    rewrite (rstrip_cons c _ Hc). now rewrite rstrip_idem.
Qed.

Lemma strip_lower_idem (s : string) :
  strip_lower (strip_lower s) = strip_lower s.
Proof.
  unfold strip_lower.
  now rewrite strip_lower_comm, lower_idem, strip_idem.
Qed.

(** ["@" in s] looks at the characters one by one. *)
Lemma contains_at_cons (c : ascii) (r : string) :
  contains "@" (String c r) = Ascii.eqb "@" c || contains "@" r.
Proof.
  cbn [contains prefix].
  destruct (ascii_dec "@" c) as [<- | Hn]; [now destruct r |].
  destruct (Ascii.eqb_spec "@" c); [contradiction | reflexivity].
Qed.

Lemma contains_at_lower (s : string) :
  contains "@" (lower s) = contains "@" s.
Proof.
  induction s as [| c r IH]; [reflexivity |].
  cbn [lower]. now rewrite !contains_at_cons, lower_char_at, IH.
Qed.

Lemma contains_at_lstrip (s : string) :
  contains "@" (lstrip s) = contains "@" s.
Proof.
  induction s as [| c r IH]; [reflexivity |].
  cbn [lstrip]. destruct (isspace c) eqn:Hc; [| reflexivity].
  now rewrite IH, contains_at_cons, (isspace_not_at c Hc).
Qed.

Lemma contains_at_rstrip (s : string) :
  contains "@" (rstrip s) = contains "@" s.
Proof.
  induction s as [| c r IH]; [reflexivity |].
  rewrite (contains_at_cons c r), <- IH. cbn [rstrip].
  destruct (rstrip r) as [| c' r'].
  - destruct (isspace c) eqn:Hc.
    + now rewrite (isspace_not_at c Hc).
    + now rewrite contains_at_cons.
  - now rewrite contains_at_cons.
Qed.

Lemma contains_at_strip_lower (s : string) :
  contains "@" (strip_lower s) = contains "@" s.
Proof.
  unfold strip_lower, strip.
  now rewrite contains_at_lower, contains_at_rstrip, contains_at_lstrip.
Qed.

Lemma contains_truthy (s : string) : contains "@" s = true -> truthy s = true.
Proof. now destruct s. Qed.

(** [str(uuid.uuid4())] is never the empty string. *)
Lemma uuid_str_nonempty (n : N) : uuid_str n <> "".
Proof.
  unfold uuid_str, hex.
  cbn [seq map firstn app string_of_list_ascii]. discriminate.
Qed.

End PyFacts.

(** ** The dict *)

Section DictFacts.

Lemma get_set_same (k : string) (v : User.t) (d : Dict.t) :
  Dict.get k (Dict.set k v d) = Some v.
Proof.
  induction d as [| [k' v'] r IH]; simpl.
  - now rewrite String.eqb_refl.
  - destruct (String.eqb k' k) eqn:E; simpl; now rewrite E.
Qed.

Lemma set_get_same (k : string) (v : User.t) (d : Dict.t) :
  Dict.get k d = Some v -> Dict.set k v d = d.
Proof.
  induction d as [| [k' v'] r IH]; simpl; [discriminate |].
  destruct (String.eqb k' k); intros H.
  - now injection H as ->.
  - now rewrite IH.
Qed.

Lemma mem_get (k : string) (d : Dict.t) :
  Dict.mem k d = true <-> exists v, Dict.get k d = Some v.
Proof.
  induction d as [| [k' v'] r IH]; simpl.
  - split; [discriminate | now intros [v ?]].
  - destruct (String.eqb k' k); simpl; [| exact IH].
    split; eauto.
Qed.

Lemma mem_false_get (k : string) (d : Dict.t) :
  Dict.mem k d = false <-> Dict.get k d = None.
Proof.
  induction d as [| [k' v'] r IH]; simpl; [tauto |].
  destruct (String.eqb k' k); simpl; [| exact IH].
  split; discriminate.
Qed.

Lemma get_In (k : string) (v : User.t) (d : Dict.t) :
  Dict.get k d = Some v -> In (k, v) d.
Proof.
  induction d as [| [k' v'] r IH]; simpl; [discriminate |].
  destruct (String.eqb_spec k' k) as [-> | _]; intros H.
  - injection H as ->. now left.
  - right. now apply IH.
Qed.

Lemma len_del (k : string) (d : Dict.t) :
  Dict.mem k d = true -> S (Dict.len (Dict.del k d)) = Dict.len d.
Proof.
  unfold Dict.len.
  induction d as [| [k' v'] r IH]; simpl; [discriminate |].
  destruct (String.eqb k' k); simpl; [reflexivity |].
  intros H. now rewrite IH.
Qed.

Lemma mem_keys (k : string) (d : Dict.t) :
  Dict.mem k d = true <-> In k (Dict.keys d).
Proof.
  induction d as [| [k' v'] r IH]; simpl; [split; [discriminate | tauto] |].
  destruct (String.eqb_spec k' k) as [-> | Hn]; simpl; [tauto |].
  rewrite IH. split; [tauto | intros [? | ?]; [contradiction | assumption]].
Qed.

(** With distinct keys, deleting a key leaves no entry under it. *)
Lemma mem_del (k : string) (d : Dict.t) :
  Dict.wf d -> Dict.mem k (Dict.del k d) = false.
Proof.
  unfold Dict.wf.
  induction d as [| [k' v'] r IH]; simpl; [reflexivity |]; intros Hwf.
  inversion Hwf as [| ? ? Hnotin Hr]; subst.
  destruct (String.eqb_spec k' k) as [-> | Hn]; simpl.
  - destruct (Dict.mem k r) eqn:E; [| reflexivity].
    apply mem_keys in E. contradiction.
  - destruct (String.eqb_spec k' k); [contradiction |]. now apply IH.
Qed.

Lemma In_del (k : string) (d : Dict.t) (e : string * User.t) :
  In e (Dict.del k d) -> In e d.
Proof.
  induction d as [| [k' v'] r IH]; simpl; [tauto |].
  destruct (String.eqb k' k); simpl; [tauto |].
  intros [? | ?]; [now left | right; now apply IH].
Qed.

End DictFacts.

(** ** The loops *)

Section LoopFacts.

Import UserCRUD.

(** A loop whose body raises nowhere on the list returns. *)
Lemma for_each_pass {A} (xs : list A) (body : A -> M unit) (s : t) :
  (forall x, In x xs -> body x s = (s, inr tt)) ->
  for_each xs body s = (s, inr tt).
Proof.
  induction xs as [| x r IH]; intros H; [reflexivity |].
  cbn [for_each]. unfold bind. rewrite (H x (or_introl eq_refl)).
  apply IH. intros y Hy. apply H. now right.
Qed.

(** A loop whose body leaves the manager alone leaves it alone. *)
Lemma for_each_after {A} (xs : list A) (body : A -> M unit) (s : t) :
  (forall x s0, after (body x) s0 = s0) ->
  after (for_each xs body) s = s.
Proof.
  intros H. revert s.
  induction xs as [| x r IH]; intros s; [reflexivity |].
  unfold after in *. cbn [for_each]. unfold bind.
  specialize (H x s). destruct (body x s) as [s' [e | []]]; simpl in *.
  - exact H.
  - subst s'. apply IH.
Qed.

(** The loop of [create]: it raises as soon as the guard holds. *)
Lemma for_each_guard_hit {A} (p : A -> bool) (e : error) (xs : list A)
      (s : t) :
  (exists x, In x xs /\ p x = true) ->
  for_each xs (fun x => if p x then raise e else ret tt) s = (s, inl e).
Proof.
  induction xs as [| x r IH]; intros (y & Hy & Hp); [destruct Hy |].
  cbn [for_each]. unfold bind. destruct (p x) eqn:E; [reflexivity |].
  simpl. apply IH. destruct Hy as [-> | Hy]; [congruence | eauto].
Qed.

Lemma first_such_none {A} (p : A -> bool) (xs : list A) :
  (forall x, In x xs -> p x = false) -> first_such p xs = None.
Proof.
  induction xs as [| x r IH]; intros H; [reflexivity |].
  simpl. rewrite (H x (or_introl eq_refl)). apply IH.
  intros y Hy. apply H. now right.
Qed.

(** After [d[k] = v], the first value that satisfies [p] is [v] when no
    value of [d] did. *)
Lemma first_such_set (p : User.t -> bool) (k : string) (v : User.t)
      (d : Dict.t) :
  p v = true ->
  (forall x, In x (Dict.values d) -> p x = false) ->
  first_such p (Dict.values (Dict.set k v d)) = Some v.
Proof.
  intros Hv. induction d as [| [k' v'] r IH]; intros H; simpl.
  - now rewrite Hv.
  - destruct (String.eqb k' k); simpl.
    + now rewrite Hv.
    + rewrite (H v' (or_introl eq_refl)). apply IH.
      intros y Hy. apply H. now right.
Qed.

End LoopFacts.

(** ** The entity *)

Section UserFacts.

Lemma post_init_inr (x y : User.t) : User.post_init x = inr y -> y = x.
Proof.
  unfold User.post_init.
  repeat match goal with |- context [if ?b then _ else _] => destruct b end;
    congruence.
Qed.

(** An update that supplies a recognised field and passes validation
    returns the merged values as supplied. *)
Lemma update_inr (now : datetime) (u u' : User.t) (kw : User.kwargs) :
  User.nonempty (User.updates kw) = true ->
  User.update now u kw = inr u' ->
  u' = User.mk (User.id u)
               (User.get (User.kw_name kw) (User.name u))
               (User.get (User.kw_email kw) (User.email u))
               (User.get (User.kw_age kw) (User.age u))
               (User.created_at u) (Some now).
Proof.
  unfold User.update. intros ->. unfold User.new. apply post_init_inr.
Qed.

Lemma update_no_fields (now : datetime) (u : User.t) (kw : User.kwargs) :
  User.kw_name kw = None -> User.kw_email kw = None ->
  User.kw_age kw = None ->
  User.update now u kw = inr u.
Proof.
  unfold User.update, User.nonempty, User.updates. simpl.
  now intros -> -> ->.
Qed.

(** Valid input passes the checks of [__post_init__] after the
    normalization of [create]. *)
Lemma create_valid (uuid4 : N) (now : datetime) (name email : string)
      (age : Z) :
  Py.strip name <> "" -> Py.contains "@" email = true ->
  (0 <= age <= 150)%Z ->
  User.create uuid4 now name email age =
  inr (User.mk (Py.uuid_str uuid4) (Py.strip name) (Py.strip_lower email)
               age now None).
Proof.
  intros Hn He Ha. unfold User.create, User.new, User.post_init. simpl.
  fold (Py.strip_lower email).
  rewrite strip_idem, contains_at_strip_lower, He.
  rewrite (contains_truthy (Py.strip_lower email))
    by now rewrite contains_at_strip_lower.
  destruct (Py.strip name) as [| c r]; [contradiction |]. simpl.
  destruct (Z.ltb_spec age 0); [lia |].
  destruct (age >? 150)%Z eqn:E; [lia | reflexivity].
Qed.

End UserFacts.

(** ** The manager *)

(** The body of the loop of [create] and of [update] leaves the manager
    alone. *)
Lemma raise_or_ret_after (b : bool) (e : error) (s : UserCRUD.t) :
  UserCRUD.after (if b then UserCRUD.raise e else UserCRUD.ret tt) s = s.
Proof. now destruct b. Qed.

(** Runs the loop of the goal: a raise closes the goal when the claimed
    result is a return; otherwise the loop has left the manager alone. *)
Ltac loop_alone s' :=
  match goal with
  | |- context [UserCRUD.for_each ?xs ?b ?s] =>
      let Hs := fresh "Hs" in
      assert (Hs : UserCRUD.after (UserCRUD.for_each xs b) s = s)
        by (apply for_each_after; intros [] ?; apply raise_or_ret_after
            || (intros; apply raise_or_ret_after));
      unfold UserCRUD.after in Hs; revert Hs;
      destruct (UserCRUD.for_each xs b s) as [s' [? | []]];
      simpl; [try discriminate | intros ->]
  end.

Section ManagerFacts.

Import UserCRUD.

Lemma eta (s : t) : mk (_users s) = s.
Proof. now destruct s. Qed.

(** What a successful [create] returns and leaves behind. *)
Lemma create_inr (uuid4 : N) (now : datetime) (name email : string)
      (age : Z) (s : t) (u : User.t) :
  result (create uuid4 now name email age) s = inr u ->
  User.create uuid4 now name email age = inr u /\
  after (create uuid4 now name email age) s
  = mk (Dict.set (User.id u) u (_users s)).
Proof.
  unfold result, after, create, bind, lift, users, set_users, ret.
  destruct (User.create uuid4 now name email age) as [e | u0];
    [discriminate |].
  loop_alone s'. intros [= ->]. now split.
Qed.

(** What a successful [update] of a stored entity returns and leaves
    behind. *)
Lemma update_inr_some (now : datetime) (user_id : string)
      (kw : User.kwargs) (s : t) (u u' : User.t) :
  Dict.get user_id (_users s) = Some u ->
  result (update now user_id kw) s = inr (Some u') ->
  User.update now u kw = inr u' /\
  after (update now user_id kw) s = mk (Dict.set user_id u' (_users s)).
Proof.
  intros Hget.
  unfold result, after, update, bind, lift, users, set_users, ret.
  rewrite Hget.
  destruct (User.kw_email kw) as [e |].
  - loop_alone s'. destruct (User.update now u kw); [discriminate |].
    intros [= ->]. now split.
  - simpl. destruct (User.update now u kw); [discriminate |].
    intros [= ->]. now split.
Qed.

(** A [create] that raises has not touched the manager. *)
Lemma create_inl (uuid4 : N) (now : datetime) (name email : string)
      (age : Z) (s : t) (e : error) :
  result (create uuid4 now name email age) s = inl e ->
  after (create uuid4 now name email age) s = s.
Proof.
  unfold result, after, create, bind, lift, users, set_users, ret.
  destruct (User.create uuid4 now name email age) as [e0 | u];
    [reflexivity |].
  match goal with |- context [for_each ?xs ?b s] =>
    pose proof (for_each_after xs b s
                  (fun x s0 => raise_or_ret_after _ _ s0)) as Hs;
    unfold after in Hs; revert Hs;
    destruct (for_each xs b s) as [s' [e1 | []]] end; simpl.
  - now intros ->.
  - discriminate.
Qed.

(** An [update] that raises has not touched the manager. *)
Lemma update_inl (now : datetime) (user_id : string) (kw : User.kwargs)
      (s : t) (e : error) :
  result (update now user_id kw) s = inl e ->
  after (update now user_id kw) s = s.
Proof.
  unfold result, after, update, bind, lift, users, set_users, ret.
  destruct (Dict.get user_id (_users s)) as [u |]; [| discriminate].
  destruct (User.kw_email kw) as [em |].
  - match goal with |- context [for_each ?xs ?b s] =>
      pose proof (for_each_after xs b s) as Hs;
      unfold after in Hs; revert Hs;
      destruct (for_each xs b s) as [s' [e1 | []]] end; simpl;
      intros Hs; rewrite Hs by (intros [] ?; apply raise_or_ret_after).
    + reflexivity.
    + destruct (User.update now u kw); [reflexivity | discriminate].
  - simpl. destruct (User.update now u kw); [reflexivity | discriminate].
Qed.

(** An [update] of an id that is not stored returns [None] and has not
    touched the manager. *)
Lemma update_absent (now : datetime) (user_id : string) (kw : User.kwargs)
      (s : t) :
  Dict.get user_id (_users s) = None ->
  update now user_id kw s = (s, inr None).
Proof. unfold update, bind, users, ret. now intros ->. Qed.

End ManagerFacts.

(** ** Deletion *)

Section DeleteFacts.

Import UserCRUD.

(** [delete] of a stored id: the answer, and what the readers by id then
    say. *)
Lemma delete_present (s : t) (user_id : string) :
  Dict.wf (_users s) ->
  Dict.mem user_id (_users s) = true ->
  result (delete user_id) s = inr true /\
  result (get_by_id user_id) (after (delete user_id) s) = inr None /\
  result (exists_ user_id) (after (delete user_id) s) = inr false /\
  exists n, result count (after (delete user_id) s) = inr n /\
            result count s = inr (S n).
Proof.
  intros Hwf Hmem.
  unfold result, after, delete, get_by_id, exists_, count, bind, users,
    set_users, ret.
  rewrite Hmem. simpl. split; [reflexivity |].
  pose proof (mem_del user_id (_users s) Hwf) as Hdel.
  split; [| split].
  - f_equal. now apply mem_false_get.
  - now rewrite Hdel.
  - exists (Dict.len (Dict.del user_id (_users s))).
    split; [reflexivity |]. f_equal. symmetry. now apply len_del.
Qed.

(** [delete] of an id that is not stored. *)
Lemma delete_absent (s : t) (user_id : string) :
  Dict.mem user_id (_users s) = false ->
  result (delete user_id) s = inr false /\ after (delete user_id) s = s.
Proof.
  intros Hmem. unfold result, after, delete, bind, users, ret.
  now rewrite Hmem.
Qed.

Lemma In_normalized_emails (x : User.t) (d : Dict.t) :
  In x (Dict.values d) ->
  In (Py.strip_lower (User.email x)) (normalized_emails d).
Proof.
  intros H. unfold normalized_emails.
  now apply (in_map (fun u => Py.strip_lower (User.email u))).
Qed.

Lemma get_In_values (k : string) (v : User.t) (d : Dict.t) :
  Dict.get k d = Some v -> In v (Dict.values d).
Proof.
  intros H. apply in_map_iff. exists (k, v). split; [reflexivity |].
  now apply get_In.
Qed.

(** While normalized emails are unique, the email of a deleted entity is
    no longer found. *)
Lemma delete_then_get_by_email (s : t) (user_id : string) (u : User.t) :
  emails_unique s ->
  Dict.get user_id (_users s) = Some u ->
  result (get_by_email (User.email u)) (after (delete user_id) s) = inr None.
Proof.
  unfold emails_unique. destruct s as [d]. simpl. intros Hu Hget.
  unfold result, after, delete, get_by_email, bind, users, set_users, ret.
  simpl. rewrite (proj2 (mem_get user_id d)) by eauto. simpl. f_equal.
  change (Py.lower (Py.strip (User.email u)))
    with (Py.strip_lower (User.email u)).
  induction d as [| [k' v'] r IH]; [discriminate |].
  simpl in Hget |- *. inversion Hu as [| ? ? Hnotin Hr]; subst.
  destruct (String.eqb k' user_id).
  - injection Hget as ->. apply first_such_none. intros x Hx.
    apply String.eqb_neq. intros Heq. apply Hnotin.
    rewrite <- (strip_lower_idem (User.email u)), <- Heq.
    now apply In_normalized_emails.
  - simpl. destruct (String.eqb_spec (User.email v')
                       (Py.strip_lower (User.email u))) as [Heq | _].
    + exfalso. apply Hnotin. rewrite Heq, strip_lower_idem.
      apply In_normalized_emails. now apply (get_In_values user_id).
    + now apply IH.
Qed.

End DeleteFacts.

(** ** The duplicate check of update *)

Section UpdateFacts.

Import UserCRUD.

Lemma for_each_ext {A} (xs : list A) (f g : A -> M unit) :
  (forall x s, f x s = g x s) ->
  forall s, for_each xs f s = for_each xs g s.
Proof.
  intros H. induction xs as [| x r IH]; intros s; [reflexivity |].
  cbn [for_each]. unfold bind. rewrite H.
  destruct (g x s) as [s' [e | []]]; [reflexivity | apply IH].
Qed.

(** The loop of [update], with its test named. *)
Lemma update_loop (user_id new_email : string) (d : Dict.t) (s : t) :
  for_each (Dict.items d) (fun '(uid, existing_user) =>
    if negb (String.eqb uid user_id)
       && String.eqb (User.email existing_user) new_email
    then raise (DuplicateEmail new_email)
    else ret tt) s
  = for_each d (fun item =>
      if clash user_id new_email item
      then raise (DuplicateEmail new_email) else ret tt) s.
Proof. apply for_each_ext. now intros [uid x] s0. Qed.

(** An item of another id whose stored email is the normalized new email
    makes [update] raise, before anything is stored. *)
Lemma update_clash (now : datetime) (user_id : string) (kw : User.kwargs)
      (e : string) (s : t) (a : User.t) :
  Dict.get user_id (_users s) = Some a ->
  User.kw_email kw = Some e ->
  (exists item, In item (_users s) /\
                clash user_id (Py.strip_lower e) item = true) ->
  update now user_id kw s = (s, inl (DuplicateEmail (Py.strip_lower e))).
Proof.
  intros Hget He Hex. unfold update, bind, users. rewrite Hget, He.
  change (Py.lower (Py.strip e)) with (Py.strip_lower e).
  rewrite update_loop.
  now rewrite (for_each_guard_hit (clash user_id (Py.strip_lower e))).
Qed.

(** So an [update] that returns an entity has met no such item. *)
Lemma update_no_clash (now : datetime) (user_id : string)
      (kw : User.kwargs) (e : string) (s : t) (a u' : User.t) :
  Dict.get user_id (_users s) = Some a ->
  User.kw_email kw = Some e ->
  result (update now user_id kw) s = inr (Some u') ->
  forall item, In item (_users s) ->
               clash user_id (Py.strip_lower e) item = false.
Proof.
  intros Hget He Hres item Hin.
  destruct (clash user_id (Py.strip_lower e) item) eqn:E; [| reflexivity].
  unfold result in Hres.
  rewrite (update_clash now user_id kw e s a Hget He) in Hres by eauto.
  discriminate.
Qed.

(** While stored emails are normalized: an update of one entity to an
    email that normalizes to the email of another raises the error of the
    duplicate email and stores nothing. *)
Lemma update_to_email_of_other (now : datetime) (ida idb : string)
      (kw : User.kwargs) (e : string) (s : t) (a b : User.t) :
  Dict.get ida (_users s) = Some a ->
  In (idb, b) (_users s) ->
  idb <> ida ->
  Py.strip_lower (User.email b) = User.email b ->
  User.kw_email kw = Some e ->
  Py.strip_lower e = Py.strip_lower (User.email b) ->
  result (update now ida kw) s = inl (DuplicateEmail (Py.strip_lower e)) /\
  after (update now ida kw) s = s.
Proof.
  intros Hget Hin Hne Hnorm He Heq. unfold result, after.
  rewrite (update_clash now ida kw e s a Hget He); [now split |].
  exists (idb, b). split; [exact Hin |]. unfold clash. simpl.
  apply String.eqb_neq in Hne. rewrite Hne, Heq, Hnorm.
  now rewrite String.eqb_refl.
Qed.

(** With unique normalized emails, no other item has the normalized email
    of the entity stored under a key. *)
Lemma unique_other (d : Dict.t) (k uid : string) (a x : User.t) :
  NoDup (normalized_emails d) ->
  Dict.get k d = Some a ->
  In (uid, x) d -> uid <> k ->
  Py.strip_lower (User.email x) <> Py.strip_lower (User.email a).
Proof.
  intros Hu Hget Hin Hne.
  induction d as [| [k' v'] r IH]; [destruct Hin |].
  inversion Hu as [| ? ? Hnotin Hr]; subst. simpl in Hget.
  destruct (String.eqb_spec k' k) as [-> | Hk].
  - injection Hget as ->. destruct Hin as [[= -> ->] | Hin];
      [contradiction |].
    intros Heq. apply Hnotin. rewrite <- Heq.
    apply In_normalized_emails, in_map_iff. now exists (uid, x).
  - destruct Hin as [[= -> ->] | Hin]; [| now apply IH].
    intros Heq. apply Hnotin. rewrite Heq.
    apply In_normalized_emails. now apply (get_In_values k).
Qed.

(** While normalized emails are unique: an update of an entity to an
    email that normalizes as its own does not raise the error of the
    duplicate email. *)
Lemma update_to_own_email (now : datetime) (user_id : string)
      (kw : User.kwargs) (e : string) (s : t) (a : User.t) :
  emails_unique s ->
  Dict.get user_id (_users s) = Some a ->
  User.kw_email kw = Some e ->
  Py.strip_lower e = Py.strip_lower (User.email a) ->
  forall x, result (update now user_id kw) s <> inl (DuplicateEmail x).
Proof.
  intros Hu Hget He Heq x.
  unfold result, update, bind, users, lift, set_users, ret.
  rewrite Hget, He. change (Py.lower (Py.strip e)) with (Py.strip_lower e).
  rewrite update_loop, for_each_pass.
  - simpl. unfold User.update, User.new, User.post_init.
    repeat match goal with
           | |- context [if ?b then _ else _] => destruct b
           end; simpl; discriminate.
  - intros [uid y] Hin. unfold clash. simpl.
    destruct (String.eqb_spec uid user_id) as [_ | Hne]; [reflexivity |].
    destruct (String.eqb_spec (User.email y) (Py.strip_lower e))
      as [Hy | _]; [| reflexivity].
    exfalso. apply (unique_other (_users s) user_id uid a y Hu Hget Hin Hne).
    now rewrite Hy, strip_lower_idem.
Qed.

End UpdateFacts.

(** ** What tidy calls keep *)

Section Consistency.

Import UserCRUD.

Lemma In_set (k k' : string) (v x : User.t) (d : Dict.t) :
  In (k', x) (Dict.set k v d) -> (k', x) = (k, v) \/ In (k', x) d.
Proof.
  induction d as [| [k0 v0] r IH]; simpl.
  - intros [H | []]. now left.
  - destruct (String.eqb_spec k0 k) as [-> | Hne]; simpl.
    + intros [H | H]; [now left | right; now right].
    + intros [H | H]; [right; now left |].
      destruct (IH H); [now left | right; now right].
Qed.

Lemma keys_set (k : string) (v : User.t) (d : Dict.t) :
  Dict.keys (Dict.set k v d)
  = if Dict.mem k d then Dict.keys d else (Dict.keys d ++ [k])%list.
Proof.
  induction d as [| [k0 v0] r IH]; simpl; [reflexivity |].
  destruct (String.eqb k0 k); simpl; [reflexivity |].
  rewrite IH. now destruct (Dict.mem k r).
Qed.

Lemma wf_set (k : string) (v : User.t) (d : Dict.t) :
  Dict.wf d -> Dict.wf (Dict.set k v d).
Proof.
  unfold Dict.wf. intros Hwf. rewrite keys_set.
  destruct (Dict.mem k d) eqn:E; [exact Hwf |].
  apply NoDup_app; [exact Hwf | repeat constructor; intros [] |].
  intros x Hx [<- | []]. apply mem_keys in Hx. congruence.
Qed.

Lemma wf_del (k : string) (d : Dict.t) :
  Dict.wf d -> Dict.wf (Dict.del k d).
Proof.
  unfold Dict.wf. induction d as [| [k0 v0] r IH]; simpl; [auto |].
  intros Hwf. inversion Hwf as [| ? ? Hnotin Hr]; subst.
  destruct (String.eqb k0 k); simpl; [exact Hr |].
  constructor; [| now apply IH].
  intros Hin. apply Hnotin. apply in_map_iff in Hin as ([k1 v1] & <- & H1).
  apply in_map_iff. exists (k1, v1). split; [reflexivity |].
  now apply (In_del k).
Qed.

Lemma unique_del (k : string) (d : Dict.t) :
  NoDup (normalized_emails d) -> NoDup (normalized_emails (Dict.del k d)).
Proof.
  induction d as [| [k0 v0] r IH]; simpl; [auto |].
  intros Hu. inversion Hu as [| ? ? Hnotin Hr]; subst.
  destruct (String.eqb k0 k); [exact Hr |].
  change (NoDup (Py.strip_lower (User.email v0)
                 :: normalized_emails (Dict.del k r))).
  constructor; [| now apply IH].
  intros Hin. apply Hnotin.
  apply in_map_iff in Hin as (x & <- & Hx).
  apply In_normalized_emails.
  apply in_map_iff in Hx as ([k1 v1] & <- & H1).
  apply in_map_iff. exists (k1, v1). split; [reflexivity |].
  now apply (In_del k).
Qed.

(** Storing an entity whose normalized email no entity under another key
    has keeps the normalized emails unique. *)
Lemma unique_set (k : string) (v : User.t) (d : Dict.t) :
  Dict.wf d ->
  NoDup (normalized_emails d) ->
  (forall uid x, In (uid, x) d -> uid <> k ->
                 Py.strip_lower (User.email x)
                 <> Py.strip_lower (User.email v)) ->
  NoDup (normalized_emails (Dict.set k v d)).
Proof.
  unfold Dict.wf.
  induction d as [| [k0 v0] r IH]; simpl; intros Hwf Hu Hfree.
  - repeat constructor. intros [].
  - inversion Hwf as [| ? ? Hk Hwr]; subst.
    inversion Hu as [| ? ? Hnotin Hr]; subst.
    destruct (String.eqb_spec k0 k) as [-> | Hne].
    + change (NoDup (Py.strip_lower (User.email v) :: normalized_emails r)).
      constructor; [| exact Hr].
      intros Hin. apply in_map_iff in Hin as (x & Heq & Hx).
      apply in_map_iff in Hx as ([k1 v1] & <- & H1).
      apply (Hfree k1 v1); [now right | | exact Heq].
      intros ->. apply Hk. apply in_map_iff. now exists (k, v1).
    + change (NoDup (Py.strip_lower (User.email v0)
                     :: normalized_emails (Dict.set k v r))).
      constructor.
      * intros Hin. apply in_map_iff in Hin as (x & Heq & Hx).
        apply in_map_iff in Hx as ([k1 v1] & <- & H1). simpl in Heq.
        destruct (In_set k k1 v v1 r H1) as [[= -> ->] | H2].
        -- apply (Hfree k0 v0); [now left | exact Hne | now symmetry].
        -- apply Hnotin. rewrite <- Heq. apply In_normalized_emails.
           apply in_map_iff. now exists (k1, v1).
      * apply IH; [exact Hwr | exact Hr |].
        intros uid x Hin. apply Hfree. now right.
Qed.

(** A [create] that meets a stored email equal to the candidate's raises. *)
Lemma create_clash (uuid4 : N) (now : datetime) (name email : string)
      (age : Z) (s : t) (u : User.t) :
  User.create uuid4 now name email age = inr u ->
  (exists x, In x (Dict.values (_users s)) /\
             String.eqb (User.email x) (User.email u) = true) ->
  create uuid4 now name email age s
  = (s, inl (DuplicateEmail (User.email u))).
Proof.
  intros Hc Hex. unfold create, bind, lift, users. rewrite Hc.
  now rewrite (for_each_guard_hit
                 (fun x => String.eqb (User.email x) (User.email u))).
Qed.

(** What [User.update] never changes, and what it stores as the email. *)
Lemma update_id_email (now : datetime) (a u' : User.t) (kw : User.kwargs) :
  User.update now a kw = inr u' ->
  User.id u' = User.id a /\
  User.email u' = User.get (User.kw_email kw) (User.email a).
Proof.
  intros H. destruct (User.nonempty (User.updates kw)) eqn:E.
  - rewrite (update_inr now a u' kw E H). now split.
  - unfold User.update in H. rewrite E in H. injection H as <-.
    destruct kw as [[n |] [e |] [g |] o]; try discriminate. now split.
Qed.

(** An [update] has either left the manager alone or returned an entity
    for a stored one. *)
Lemma update_cases (now : datetime) (user_id : string) (kw : User.kwargs)
      (s : t) :
  after (update now user_id kw) s = s \/
  exists a u', Dict.get user_id (_users s) = Some a /\
               result (update now user_id kw) s = inr (Some u').
Proof.
  destruct (Dict.get user_id (_users s)) as [a |] eqn:Hget.
  - destruct (result (update now user_id kw) s) as [e | [u' |]] eqn:Hres.
    + left. now apply (update_inl now user_id kw s e).
    + right. now exists a, u'.
    + exfalso. revert Hres.
      unfold result, update, bind, lift, users, set_users, ret.
      rewrite Hget. destruct (User.kw_email kw) as [e |].
      * loop_alone s'. destruct (User.update now a kw); discriminate.
      * simpl. destruct (User.update now a kw); discriminate.
  - left. unfold after. now rewrite update_absent.
Qed.

Lemma consistent_init : consistent init.
Proof.
  repeat split; try constructor. all: intros ? ? [].
Qed.

Lemma create_consistent (uuid4 : N) (now : datetime) (name email : string)
      (age : Z) (s : t) :
  consistent s -> consistent (after (create uuid4 now name email age) s).
Proof.
  intros (Hwf & Hid & Hnorm & Hu).
  destruct (result (create uuid4 now name email age) s) as [e | u] eqn:Hres.
  - rewrite (create_inl _ _ _ _ _ _ e Hres). now repeat split.
  - destruct (create_inr _ _ _ _ _ _ _ Hres) as [Hc Hs]. rewrite Hs.
    assert (Hemail : Py.strip_lower (User.email u) = User.email u).
    { unfold User.create, User.new in Hc. apply post_init_inr in Hc.
      subst u. apply strip_lower_idem. }
    unfold consistent, emails_normalized, emails_unique. simpl.
    split; [now apply wf_set |]. split; [| split].
    + intros k x Hin. destruct (In_set _ _ _ _ _ Hin) as [[= -> ->] | H];
        [reflexivity | now apply Hid].
    + intros k x Hin. destruct (In_set _ _ _ _ _ Hin) as [[= -> ->] | H];
        [exact Hemail | now apply (Hnorm k)].
    + apply unique_set; [exact Hwf | exact Hu |].
      intros uid x Hin _. rewrite Hemail, (Hnorm uid x Hin).
      apply String.eqb_neq.
      destruct (String.eqb (User.email x) (User.email u)) eqn:E;
        [| reflexivity].
      exfalso. unfold result in Hres.
      rewrite (create_clash _ _ _ _ _ s u Hc) in Hres; [discriminate |].
      exists x. split; [| exact E]. apply in_map_iff. now exists (uid, x).
Qed.

Lemma update_consistent (now : datetime) (user_id : string)
      (kw : User.kwargs) (s : t) :
  tidy (Update now user_id kw) ->
  consistent s -> consistent (after (update now user_id kw) s).
Proof.
  intros Htidy (Hwf & Hid & Hnorm & Hu).
  destruct (update_cases now user_id kw s) as [-> | (a & u' & Hget & Hres)];
    [now repeat split |].
  destruct (update_inr_some _ _ _ _ _ _ Hget Hres) as [Hup Hs]. rewrite Hs.
  destruct (update_id_email _ _ _ _ Hup) as [Hid' Hem].
  pose proof (get_In _ _ _ Hget) as Hina.
  assert (Hemail : Py.strip_lower (User.email u') = User.email u').
  { rewrite Hem. simpl in Htidy.
    destruct (User.kw_email kw); [exact Htidy | now apply (Hnorm user_id)]. }
  unfold consistent, emails_normalized, emails_unique. simpl.
  split; [now apply wf_set |]. split; [| split].
  - intros k x Hin. destruct (In_set _ _ _ _ _ Hin) as [[= -> ->] | H];
      [| now apply Hid].
    rewrite Hid'. now apply Hid.
  - intros k x Hin. destruct (In_set _ _ _ _ _ Hin) as [[= -> ->] | H];
      [exact Hemail | now apply (Hnorm k)].
  - apply unique_set; [exact Hwf | exact Hu |].
    intros uid x Hin Hne.
    destruct (User.kw_email kw) as [e |] eqn:He; simpl in Hem.
    + rewrite Hemail, Hem, (Hnorm uid x Hin).
      pose proof (update_no_clash _ _ _ e _ _ _ Hget He Hres _ Hin) as Hc.
      unfold clash in Hc. simpl in Hc.
      apply String.eqb_neq in Hne. rewrite Hne in Hc. simpl in Hc.
      apply String.eqb_neq in Hc. simpl in Htidy. rewrite He in Htidy.
      now rewrite Htidy in Hc.
    + rewrite Hem. now apply (unique_other (_users s) user_id uid a x).
Qed.

Lemma delete_consistent (user_id : string) (s : t) :
  consistent s -> consistent (after (delete user_id) s).
Proof.
  intros (Hwf & Hid & Hnorm & Hu).
  unfold after, delete, bind, users, set_users, ret.
  destruct (Dict.mem user_id (_users s)); simpl; [| now repeat split].
  unfold consistent, emails_normalized, emails_unique. simpl.
  split; [now apply wf_del |]. split; [| split].
  - intros k x Hin. apply Hid. now apply (In_del user_id).
  - intros k x Hin. apply (Hnorm k). now apply (In_del user_id).
  - now apply unique_del.
Qed.

Lemma step_consistent (s : t) (c : call) :
  tidy c -> consistent s -> consistent (step s c).
Proof.
  destruct c as [uuid4 now name email age | now user_id kw | user_id |];
    intros Ht Hs; simpl.
  - now apply create_consistent.
  - now apply update_consistent.
  - now apply delete_consistent.
  - apply consistent_init.
Qed.

(** As long as every update that supplies an email supplies it in
    normalized form, the manager stays consistent; in particular no two
    stored entities have the same normalized email. *)
Lemma tidy_run_consistent (cs : list call) :
  Forall tidy cs -> consistent (run cs).
Proof.
  unfold run. generalize consistent_init. generalize init.
  induction cs as [| c r IH]; intros s Hs Ht; [exact Hs |].
  inversion Ht as [| ? ? Hc Hr]; subst. simpl.
  apply IH; [now apply step_consistent | exact Hr].
Qed.

(** Keys stay distinct on every run, tidy or not. *)
Lemma reachable_wf (s : t) : reachable s -> Dict.wf (_users s).
Proof.
  intros [cs <-]. unfold run.
  assert (H0 : Dict.wf (_users init)) by constructor.
  revert H0. generalize init.
  induction cs as [| c r IH]; intros s Hs; [exact Hs |].
  simpl. apply IH. destruct c as [uuid4 now name email age | now uid kw | uid |];
    simpl.
  - destruct (result (create uuid4 now name email age) s) as [e | u] eqn:Hres.
    + now rewrite (create_inl _ _ _ _ _ _ e Hres).
    + destruct (create_inr _ _ _ _ _ _ _ Hres) as [_ ->]. now apply wf_set.
  - destruct (update_cases now uid kw s) as [-> | (a & u' & Hget & Hres)];
      [exact Hs |].
    destruct (update_inr_some _ _ _ _ _ _ Hget Hres) as [_ ->].
    now apply wf_set.
  - unfold after, delete, bind, users, set_users, ret.
    destruct (Dict.mem uid (_users s)); simpl; [now apply wf_del | exact Hs].
  - constructor.
Qed.

End Consistency.

(** * The claims *)

Section Claims.

Import UserCRUD.

(** C1 does not hold of the code.  On the input of
    [test_normalization_fix], an update that supplies a name with spaces
    around it and an email in capitals succeeds and returns both exactly
    as supplied: neither is trimmed, the email is not lowercased. *)
Theorem C1_update_returns_values_as_supplied :
  exists u,
    result (update 200 id1
              (User.mkKw (Some "  New Name  ") (Some "NEW@EXAMPLE.COM")
                         None []))
           one_user
    = inr (Some u) /\
    User.name u = "  New Name  " /\
    User.email u = "NEW@EXAMPLE.COM" /\
    User.name u <> Py.strip "  New Name  " /\
    User.email u <> Py.strip_lower "NEW@EXAMPLE.COM".
Proof.
  eexists. split; [reflexivity |]. simpl.
  repeat split; vm_compute; discriminate.
Qed.

(** C2 does not hold of the code.  Create a user, update its email to
    the same address with a capital, create a second user under the
    first spelling: all three calls succeed, and the manager they lead
    to stores two entities, under different ids, whose emails have the
    same normalization. *)
Theorem C2_reachable_manager_shares_email :
  reachable (run respelled) /\
  (exists a b,
      _users (run respelled) = [(id1, a); (id2, b)] /\
      id1 <> id2 /\
      Py.strip_lower (User.email a) = Py.strip_lower (User.email b)) /\
  ~ emails_unique (run respelled).
Proof.
  split; [now exists respelled |]. split.
  - do 2 eexists. split; [reflexivity |].
    split; [vm_compute; discriminate | reflexivity].
  - intros H. unfold emails_unique in H.
    replace (normalized_emails (_users (run respelled)))
      with ["a@x.com"; "a@x.com"] in H by reflexivity.
    inversion H as [| x l Hnotin _]. apply Hnotin. now left.
Qed.

(** C3. A [create] or an [update] that raises, whichever of the two
    errors, leaves the manager exactly as it found it: nothing is
    inserted, replaced or removed. *)
Theorem C3_failed_call_leaves_collection (s : t) :
  (forall uuid4 now name email age e,
      result (create uuid4 now name email age) s = inl e ->
      after (create uuid4 now name email age) s = s) /\
  (forall now user_id kwargs e,
      result (update now user_id kwargs) s = inl e ->
      after (update now user_id kwargs) s = s).
Proof.
  split.
  - intros uuid4 now name email age e. apply create_inl.
  - intros now user_id kwargs e. apply update_inl.
Qed.

Lemma C3_witness :
  after (create 2 200 "Another User" "test@example.com" 25) one_user
  = one_user /\
  after (update 200 id1 (only_age 151)) one_user = one_user.
Proof.
  split.
  - apply (proj1 (C3_failed_call_leaves_collection one_user)
             2%N 200%Z "Another User" "test@example.com" 25%Z
             (DuplicateEmail "test@example.com")).
    reflexivity.
  - apply (proj2 (C3_failed_call_leaves_collection one_user)
             200%Z id1 (only_age 151) (InvalidField AgeOutOfRange)).
    reflexivity.
Defined.

(** C4. For valid input (a name that is not empty once trimmed, an
    email with an at sign, an age from 0 to 150) and a manager where no
    stored email normalizes to the normalization of the new one, [create]
    returns an entity; [get_by_id] of its id and [get_by_email] of any
    query that normalizes to its email then return that entity, whose
    name is the trimmed name, whose email is the trimmed and lowercased
    email, whose age is the given one, whose id is not empty, whose
    [created_at] is the time of the call and whose [updated_at] is
    unset. *)
Theorem C4_create_then_read (s : t) (uuid4 : N) (now : datetime)
        (name email : string) (age : Z) :
  Py.strip name <> "" ->
  Py.contains "@" email = true ->
  (0 <= age <= 150)%Z ->
  (forall k x, In (k, x) (_users s) ->
               Py.strip_lower (User.email x) <> Py.strip_lower email) ->
  exists u,
    result (create uuid4 now name email age) s = inr u /\
    result (get_by_id (User.id u)) (after (create uuid4 now name email age) s)
    = inr (Some u) /\
    (forall q, Py.strip_lower q = User.email u ->
               result (get_by_email q)
                      (after (create uuid4 now name email age) s)
               = inr (Some u)) /\
    User.name u = Py.strip name /\
    User.email u = Py.strip_lower email /\
    User.age u = age /\
    User.id u <> "" /\
    User.created_at u = now /\
    User.updated_at u = None.
Proof.
  intros Hn He Ha Hfree.
  set (u := User.mk (Py.uuid_str uuid4) (Py.strip name)
                    (Py.strip_lower email) age now None).
  assert (Hother : forall x, In x (Dict.values (_users s)) ->
                             String.eqb (User.email x) (User.email u) = false).
  { intros x Hx. apply in_map_iff in Hx as ([k x'] & <- & Hin).
    apply String.eqb_neq. intros Heq. apply (Hfree k x' Hin).
    simpl in Heq. rewrite Heq. apply strip_lower_idem. }
  assert (Hrun : create uuid4 now name email age s
                 = (mk (Dict.set (User.id u) u (_users s)), inr u)).
  { unfold create, bind, lift, users, set_users, ret.
    rewrite (create_valid uuid4 now name email age Hn He Ha). fold u.
    rewrite for_each_pass; [reflexivity |].
    intros x Hx. now rewrite (Hother x Hx). }
  exists u. unfold result, after. rewrite Hrun. simpl.
  split; [reflexivity |]. split; [| split].
  - unfold get_by_id, bind, users, ret. simpl. now rewrite get_set_same.
  - intros q Hq. unfold get_by_email, bind, users, ret. simpl.
    change (Py.lower (Py.strip q)) with (Py.strip_lower q). rewrite Hq.
    f_equal. apply first_such_set; [apply String.eqb_refl | exact Hother].
  - repeat split. apply uuid_str_nonempty.
Qed.

Lemma C4_witness :
  exists u,
    result (create 2 200 "  User 2 " " User2@Example.com" 30) one_user
    = inr u /\
    result (get_by_id (User.id u))
           (after (create 2 200 "  User 2 " " User2@Example.com" 30) one_user)
    = inr (Some u) /\
    (forall q, Py.strip_lower q = User.email u ->
               result (get_by_email q)
                      (after (create 2 200 "  User 2 " " User2@Example.com" 30)
                             one_user)
               = inr (Some u)) /\
    User.name u = Py.strip "  User 2 " /\
    User.email u = Py.strip_lower " User2@Example.com" /\
    User.age u = 30%Z /\
    User.id u <> "" /\
    User.created_at u = 200%Z /\
    User.updated_at u = None.
Proof.
  apply (C4_create_then_read one_user 2%N 200%Z "  User 2 "
           " User2@Example.com" 30%Z).
  - vm_compute. discriminate.
  - reflexivity.
  - lia.
  - intros k x [[= <- <-] | []]. vm_compute. discriminate.
Defined.

(** C5, as stated, fails: a second [create] with the email of a stored
    entity and an age out of range raises the error of the age check,
    not the error of the duplicate email. *)
Lemma C5_counterexample :
  (exists k u, In (k, u) (_users one_old_user) /\
               Py.strip_lower (User.email u)
               = Py.strip_lower "test@example.com") /\
  result (create 2 200 "Otro nombre" "test@example.com" 151) one_old_user
  = inl (InvalidField AgeOutOfRange) /\
  (forall e, result (create 2 200 "Otro nombre" "test@example.com" 151)
                    one_old_user
             <> inl (DuplicateEmail e)).
Proof.
  split; [| split].
  - exists id1, (User.mk id1 "Test User" "test@example.com" 150 100 None).
    split; [now left | reflexivity].
  - reflexivity.
  - intros e. vm_compute. discriminate.
Qed.

(** C5, amended. When the manager stores an entity whose email, as
    stored, is the normalization of the email of a [create] call, and
    the call is otherwise valid (a name that is not empty once trimmed,
    an email with an at sign, an age from 0 to 150), the call raises the
    error of the duplicate email and leaves the manager, and so its
    count, as it was. *)
Theorem C5_duplicate_create_of_valid_input (s : t) (uuid4 : N)
        (now : datetime) (name email : string) (age : Z)
        (k : string) (x : User.t) :
  In (k, x) (_users s) ->
  User.email x = Py.strip_lower email ->
  Py.strip name <> "" ->
  Py.contains "@" email = true ->
  (0 <= age <= 150)%Z ->
  result (create uuid4 now name email age) s
  = inl (DuplicateEmail (Py.strip_lower email)) /\
  after (create uuid4 now name email age) s = s /\
  result count (after (create uuid4 now name email age) s) = result count s.
Proof.
  intros Hin Hx Hn He Ha.
  assert (Hrun : create uuid4 now name email age s
                 = (s, inl (DuplicateEmail (Py.strip_lower email)))).
  { unfold create, bind, lift, users, set_users, ret.
    rewrite (create_valid uuid4 now name email age Hn He Ha). simpl.
    rewrite (for_each_guard_hit
               (fun y => String.eqb (User.email y) (Py.strip_lower email)));
      [reflexivity |].
    exists x. split.
    - apply in_map_iff. now exists (k, x).
    - rewrite Hx. apply String.eqb_refl. }
  unfold result, after. now rewrite Hrun.
Qed.

Lemma C5_witness :
  result (create 2 200 "Otro nombre" " TEST@example.com " 26) one_user
  = inl (DuplicateEmail (Py.strip_lower " TEST@example.com ")) /\
  after (create 2 200 "Otro nombre" " TEST@example.com " 26) one_user
  = one_user /\
  result count
         (after (create 2 200 "Otro nombre" " TEST@example.com " 26) one_user)
  = result count one_user.
Proof.
  apply (C5_duplicate_create_of_valid_input one_user 2%N 200%Z
           "Otro nombre" " TEST@example.com " 26%Z id1
           (User.mk id1 "Test User" "test@example.com" 25 100 None)).
  - now left.
  - reflexivity.
  - vm_compute. discriminate.
  - reflexivity.
  - lia.
Defined.

(** C6 does not hold of the code.  In a reachable manager with two
    users, where the second has respelled its own email in capitals, an
    update of the first user to the second user's address in lower case
    succeeds and replaces the first user, although the address
    normalizes to the normalized email of the second.  And in the
    manager of C2, an update of the first user to its own email, as
    stored, raises the error of the duplicate email. *)
Theorem C6_update_to_email_of_other_succeeds :
  reachable two_users_shouting /\
  (exists a b a',
      Dict.get id1 (_users two_users_shouting) = Some a /\
      Dict.get id2 (_users two_users_shouting) = Some b /\
      id1 <> id2 /\
      Py.strip_lower "user2@example.com" = Py.strip_lower (User.email b) /\
      result (update 400 id1 (only_email "user2@example.com"))
             two_users_shouting
      = inr (Some a') /\
      Dict.get id1
        (_users (after (update 400 id1 (only_email "user2@example.com"))
                       two_users_shouting))
      = Some a' /\
      a' <> a) /\
  (exists a,
      Dict.get id1 (_users (run respelled)) = Some a /\
      result (update 400 id1 (only_email (User.email a))) (run respelled)
      = inl (DuplicateEmail "a@x.com")).
Proof.
  split; [| split].
  - exists [Create 1 100 "User 1" "user1@example.com" 25;
            Create 2 200 "User 2" "user2@example.com" 30;
            Update 300 id2 (only_email "USER2@EXAMPLE.COM")].
    reflexivity.
  - do 3 eexists. repeat split; try reflexivity;
      vm_compute; discriminate.
  - eexists. split; reflexivity.
Qed.

(** C7 does not hold of the code.  In the manager of C2, [delete] of the
    first user returns true, and [get_by_email] of the email that user
    had then returns the second user, not absence. *)
Theorem C7_get_by_email_after_delete_finds_other :
  reachable (run respelled) /\
  exists a b,
    Dict.get id1 (_users (run respelled)) = Some a /\
    result (delete id1) (run respelled) = inr true /\
    result (get_by_email (User.email a))
           (after (delete id1) (run respelled))
    = inr (Some b) /\
    User.id b = id2.
Proof.
  split; [now exists respelled |].
  do 2 eexists. repeat split; reflexivity.
Qed.

(** C8. An [update] of a stored entity that supplies none of [name],
    [email], [age] (other keywords or none at all) returns the stored
    entity itself, [updated_at] included, and leaves the manager as it
    was. *)
Theorem C8_update_without_fields (s : t) (now : datetime)
        (user_id : string) (u : User.t) (kwargs : User.kwargs) :
  Dict.get user_id (_users s) = Some u ->
  User.kw_name kwargs = None -> User.kw_email kwargs = None ->
  User.kw_age kwargs = None ->
  exists u',
    result (update now user_id kwargs) s = inr (Some u') /\
    u' = u /\ User.updated_at u' = User.updated_at u /\
    after (update now user_id kwargs) s = s.
Proof.
  intros Hget Hn He Ha. exists u.
  unfold result, after, update, bind, lift, users, set_users, ret.
  rewrite Hget, He. simpl.
  rewrite (update_no_fields now u kwargs Hn He Ha). simpl.
  rewrite (set_get_same user_id u (_users s) Hget), eta. auto.
Qed.

Lemma C8_witness :
  exists u',
    result (update 200 id1 (no_fields ["phone"])) one_user = inr (Some u') /\
    u' = User.mk id1 "Test User" "test@example.com" 25 100 None /\
    User.updated_at u'
    = User.updated_at (User.mk id1 "Test User" "test@example.com" 25 100 None)
    /\ after (update 200 id1 (no_fields ["phone"])) one_user = one_user.
Proof.
  apply (C8_update_without_fields one_user 200%Z id1
           (User.mk id1 "Test User" "test@example.com" 25 100 None)
           (no_fields ["phone"]));
    reflexivity.
Defined.

(** C9. A successful [update] of a stored entity that supplies exactly
    one of [name], [email], [age] stores an entity with the same [id] and
    [created_at], with [updated_at] set to the time of the call, with
    the supplied value in that field, and with the two other fields as
    they were. *)
Theorem C9_update_single_field (s : t) (now : datetime) (user_id : string)
        (u u' : User.t) (kwargs : User.kwargs) (f : field) :
  Dict.get user_id (_users s) = Some u ->
  (forall g, supplied kwargs g <> None <-> g = f) ->
  result (update now user_id kwargs) s = inr (Some u') ->
  result (get_by_id user_id) (after (update now user_id kwargs) s)
  = inr (Some u') /\
  User.id u' = User.id u /\
  User.created_at u' = User.created_at u /\
  User.updated_at u' = Some now /\
  supplied kwargs f = Some (field_of u' f) /\
  (forall g, g <> f -> field_of u' g = field_of u g).
Proof.
  intros Hget Hone Hres.
  destruct (update_inr_some now user_id kwargs s u u' Hget Hres)
    as [Hu Hs].
  assert (Hsome : supplied kwargs f <> None) by now apply Hone.
  assert (Hnone : forall g, g <> f -> supplied kwargs g = None).
  { intros g Hg. destruct (supplied kwargs g) eqn:E; [| reflexivity].
    exfalso. apply Hg, Hone. congruence. }
  assert (Hne : User.nonempty (User.updates kwargs) = true).
  { destruct kwargs as [[n |] [e |] [a |] o]; try reflexivity.
    destruct f; now elim Hsome. }
  rewrite (update_inr now u u' kwargs Hne Hu). simpl.
  split; [| repeat split].
  - rewrite Hs. unfold result, get_by_id, bind, users, ret. simpl.
    rewrite get_set_same. now rewrite <- (update_inr now u u' kwargs Hne Hu).
  - destruct f; simpl in *.
    + destruct (User.kw_name kwargs); [reflexivity | now elim Hsome].
    + destruct (User.kw_email kwargs); [reflexivity | now elim Hsome].
    + destruct (User.kw_age kwargs); [reflexivity | now elim Hsome].
  - intros g Hg. specialize (Hnone g Hg).
    destruct g; simpl in *.
    + now destruct (User.kw_name kwargs).
    + now destruct (User.kw_email kwargs).
    + now destruct (User.kw_age kwargs).
Qed.

Lemma C9_witness :
  let u := User.mk id1 "Test User" "test@example.com" 25 100 None in
  let u' := User.mk id1 "Test User" "test@example.com" 99 100 (Some 200%Z) in
  result (get_by_id id1) (after (update 200 id1 (only_age 99)) one_user)
  = inr (Some u') /\
  User.id u' = User.id u /\
  User.created_at u' = User.created_at u /\
  User.updated_at u' = Some 200%Z /\
  supplied (only_age 99) FAge = Some (field_of u' FAge) /\
  (forall g, g <> FAge -> field_of u' g = field_of u g).
Proof.
  intros u u'.
  apply (C9_update_single_field one_user 200%Z id1 u u' (only_age 99) FAge).
  - reflexivity.
  - intros g. destruct g; simpl; split; congruence.
  - reflexivity.
Defined.

(** C10. [exists(id)] answers true exactly when [get_by_id(id)] returns
    an entity, and [count()] is the length of what [get_all()] returns. *)
Theorem C10_exists_get_count_all (s : t) (user_id : string) :
  (result (exists_ user_id) s = inr true <->
   exists u, result (get_by_id user_id) s = inr (Some u)) /\
  exists n l,
    result count s = inr n /\ result get_all s = inr l /\
    n = List.length l.
Proof.
  unfold result, exists_, get_by_id, count, get_all, bind, users, ret.
  simpl. split.
  - split.
    + intros [= H]. apply mem_get in H as [u E]. exists u. now rewrite E.
    + intros [u [= E]]. f_equal. apply mem_get. now exists u.
  - exists (Dict.len (_users s)), (Dict.values (_users s)).
    repeat split. unfold Dict.len, Dict.values. now rewrite length_map.
Qed.

End Claims.

(** * Further properties of the code *)

(** ** The entity: construction and update *)

Section EntityOutcome.

Lemma blank_test (n : string) :
  negb (Py.truthy n) || (String.length (Py.strip n) =? 0)%nat
  = String.eqb (Py.strip n) "".
Proof.
  destruct n as [| c r]; [reflexivity |]. cbn [Py.truthy negb orb].
  now destruct (Py.strip (String c r)).
Qed.

Lemma at_test (e : string) :
  negb (Py.truthy e) || negb (Py.contains "@" e)
  = negb (Py.contains "@" e).
Proof. now destruct e. Qed.

(** The outcome of [__post_init__], by the three rules in their order. *)
Lemma post_init_outcome (x : User.t) :
  User.post_init x =
  if String.eqb (Py.strip (User.name x)) "" then inl (InvalidField EmptyName)
  else if negb (Py.contains "@" (User.email x))
       then inl (InvalidField BadEmail)
  else if (User.age x <? 0)%Z || (User.age x >? 150)%Z
       then inl (InvalidField AgeOutOfRange)
  else inr x.
Proof. unfold User.post_init. now rewrite blank_test, at_test. Qed.

(** [User.create] in terms of its arguments. *)
Lemma create_cases (uuid4 : N) (now : datetime)
      (name email : string) (age : Z) :
  User.create uuid4 now name email age =
  if String.eqb (Py.strip name) "" then inl (InvalidField EmptyName)
  else if negb (Py.contains "@" email) then inl (InvalidField BadEmail)
  else if (age <? 0)%Z || (age >? 150)%Z
       then inl (InvalidField AgeOutOfRange)
  else inr (User.mk (Py.uuid_str uuid4) (Py.strip name)
                    (Py.strip_lower email) age now None).
Proof.
  unfold User.create, User.new. rewrite post_init_outcome. simpl.
  fold (Py.strip_lower email).
  now rewrite strip_idem, contains_at_strip_lower.
Qed.

(** X1. [User.create] in terms of its arguments: it raises for a name
    that is blank once trimmed, else for an email without an at sign, else
    for an age below 0 or above 150, in this order; otherwise it returns
    the entity with the trimmed name, the trimmed and lowercased email,
    the age, the drawn id, the time of the call and no [updated_at].  The
    bounds 0 and 150 are accepted. *)
Theorem X1_User_create_outcome (uuid4 : N) (now : datetime)
        (name email : string) (age : Z) :
  User.create uuid4 now name email age =
  if String.eqb (Py.strip name) "" then inl (InvalidField EmptyName)
  else if negb (Py.contains "@" email) then inl (InvalidField BadEmail)
  else if (age <? 0)%Z || (age >? 150)%Z
       then inl (InvalidField AgeOutOfRange)
  else inr (User.mk (Py.uuid_str uuid4) (Py.strip name)
                    (Py.strip_lower email) age now None).
Proof. apply create_cases. Qed.



End EntityOutcome.

(** ** What every reachable manager satisfies *)

Section Reachable.

Import UserCRUD.

(** A relation between keys and entities that the factory establishes and
    [User.update] keeps holds of every entry of a reachable manager. *)
Lemma stored_invariant (R : string -> User.t -> Prop) :
  (forall uuid4 now name email age u,
      User.create uuid4 now name email age = inr u -> R (User.id u) u) ->
  (forall k a now kw u',
      R k a -> User.update now a kw = inr u' -> R k u') ->
  forall s, reachable s ->
            forall k u, In (k, u) (_users s) -> R k u.
Proof.
  intros Hcreate Hupdate s [cs <-]. unfold run.
  assert (H0 : forall k u, In (k, u) (_users init) -> R k u)
    by (intros k u []).
  revert H0. generalize init.
  induction cs as [| c r IH]; intros s Hs; [exact Hs |].
  simpl. apply IH. intros k u.
  destruct c as [uuid4 now name email age | now uid kw | uid |]; simpl.
  - destruct (result (create uuid4 now name email age) s) as [e | x] eqn:Hres.
    + rewrite (create_inl _ _ _ _ _ _ e Hres). apply Hs.
    + destruct (create_inr _ _ _ _ _ _ _ Hres) as [Hc ->]. simpl.
      intros Hin. destruct (In_set _ _ _ _ _ Hin) as [[= -> ->] | H];
        [now apply (Hcreate uuid4 now name email age) | now apply Hs].
  - destruct (update_cases now uid kw s) as [-> | (a & u' & Hget & Hres)];
      [apply Hs |].
    destruct (update_inr_some _ _ _ _ _ _ Hget Hres) as [Hup ->]. simpl.
    intros Hin. destruct (In_set _ _ _ _ _ Hin) as [[= -> ->] | H];
      [| now apply Hs].
    apply (Hupdate uid a now kw u'); [| exact Hup].
    apply Hs. now apply get_In.
  - unfold after, delete, bind, users, set_users, ret.
    destruct (Dict.mem uid (_users s)); simpl; [| apply Hs].
    intros Hin. apply Hs. now apply (In_del uid).
  - intros [].
Qed.

Lemma post_init_fixed (x u : User.t) :
  User.post_init x = inr u -> User.post_init u = inr u.
Proof. intros H. now rewrite (post_init_inr x u H) in H |- *. Qed.

(** [User.update] returns the entity itself or one that has passed
    [__post_init__] with the time of the call as [updated_at]. *)
Lemma update_result (now : datetime) (a u' : User.t) (kw : User.kwargs) :
  User.update now a kw = inr u' ->
  u' = a \/ (User.post_init u' = inr u' /\ User.updated_at u' = Some now
             /\ User.id u' = User.id a).
Proof.
  unfold User.update.
  destruct (User.nonempty (User.updates kw)); [| intros [= <-]; now left].
  unfold User.new. intros H. right.
  split; [now apply (post_init_fixed _ _ H) |].
  now rewrite (post_init_inr _ _ H).
Qed.

Lemma valid_fields (u : User.t) :
  User.post_init u = inr u ->
  Py.strip (User.name u) <> "" /\ Py.contains "@" (User.email u) = true /\
  (0 <= User.age u <= 150)%Z.
Proof.
  rewrite post_init_outcome.
  destruct (String.eqb_spec (Py.strip (User.name u)) ""); [discriminate |].
  destruct (Py.contains "@" (User.email u)); [| discriminate]. simpl.
  destruct (Z.ltb_spec (User.age u) 0); [discriminate |].
  destruct (User.age u >? 150)%Z eqn:E; [discriminate |].
  intros _. repeat split; [assumption .. | lia].
Qed.

Lemma reachable_valid (s : t) (k : string) (u : User.t) :
  reachable s -> In (k, u) (_users s) -> User.post_init u = inr u.
Proof.
  intros Hr. revert k u.
  apply (stored_invariant (fun _ u => User.post_init u = inr u)); [| | exact Hr].
  - intros uuid4 now name email age u. unfold User.create, User.new.
    apply post_init_fixed.
  - intros k a now kw u' Ha Hup.
    destruct (update_result _ _ _ _ Hup) as [-> | [H _]]; assumption.
Qed.

Lemma reachable_ids (s : t) (k : string) (u : User.t) :
  reachable s -> In (k, u) (_users s) -> User.id u = k.
Proof.
  intros Hr. revert k u.
  apply (stored_invariant (fun k u => User.id u = k)); [| | exact Hr].
  - reflexivity.
  - intros k a now kw u' Ha Hup.
    destruct (update_result _ _ _ _ Hup) as [-> | (_ & _ & H)]; congruence.
Qed.

(** The manager of one user is reachable. *)
Lemma reachable_one_user : reachable one_user.
Proof. now exists [Create 1 100 "Test User" "test@example.com" 25]. Qed.

(** X3. Every entity stored in a reachable manager satisfies the rules of
    [__post_init__]: its name is not blank, its email has an at sign and
    its age is between 0 and 150, whatever calls, failed ones included,
    led to the manager. *)
Theorem X3_stored_entities_are_valid (s : t) (k : string) (u : User.t) :
  reachable s -> In (k, u) (_users s) ->
  Py.strip (User.name u) <> "" /\ Py.contains "@" (User.email u) = true /\
  (0 <= User.age u <= 150)%Z.
Proof.
  intros Hr Hin. apply valid_fields. now apply (reachable_valid s k).
Qed.

Lemma X3_witness :
  Py.strip "Test User" <> "" /\ Py.contains "@" "test@example.com" = true /\
  (0 <= 25 <= 150)%Z.
Proof.
  apply (X3_stored_entities_are_valid one_user id1
           (User.mk id1 "Test User" "test@example.com" 25 100 None)).
  - exact reachable_one_user.
  - simpl. now left.
Defined.

(** X4. In a reachable manager the keys of the collection are distinct
    and every entity is stored under its own id, which is never the empty
    string. *)
Theorem X4_keys_are_ids (s : t) :
  reachable s ->
  NoDup (Dict.keys (_users s)) /\
  forall k u, In (k, u) (_users s) -> User.id u = k /\ k <> "".
Proof.
  intros Hr. split; [now apply reachable_wf |].
  intros k u Hin. split; [now apply (reachable_ids s) |].
  revert k u Hin.
  apply (stored_invariant (fun k _ => k <> "")); [| | exact Hr].
  - intros uuid4 now name email age u Hc.
    unfold User.create, User.new in Hc. apply post_init_inr in Hc.
    subst u. apply uuid_str_nonempty.
  - auto.
Qed.

Lemma X4_witness :
  NoDup (Dict.keys (_users one_user)) /\
  forall k u, In (k, u) (_users one_user) -> User.id u = k /\ k <> "".
Proof. apply (X4_keys_are_ids one_user). exact reachable_one_user. Defined.

(** X5. In a reachable manager an entity whose [updated_at] is unset is
    as the factory built it: its name is trimmed and its email is trimmed
    and lowercased.  Only an update that supplies a field, which sets
    [updated_at], can store anything else. *)
Theorem X5_never_updated_is_normalized (s : t) (k : string) (u : User.t) :
  reachable s -> In (k, u) (_users s) ->
  User.updated_at u = None ->
  Py.strip (User.name u) = User.name u /\
  Py.strip_lower (User.email u) = User.email u.
Proof.
  intros Hr. revert k u.
  apply (stored_invariant
           (fun _ u => User.updated_at u = None ->
                       Py.strip (User.name u) = User.name u /\
                       Py.strip_lower (User.email u) = User.email u));
    [| | exact Hr].
  - intros uuid4 now name email age u Hc _.
    unfold User.create, User.new in Hc. apply post_init_inr in Hc.
    subst u. simpl. split; [apply strip_idem | apply strip_lower_idem].
  - intros k a now kw u' Ha Hup.
    destruct (update_result _ _ _ _ Hup) as [-> | (_ & H & _)];
      [exact Ha | congruence].
Qed.

Lemma X5_witness :
  Py.strip "Test User" = "Test User" /\
  Py.strip_lower "test@example.com" = "test@example.com".
Proof.
  apply (X5_never_updated_is_normalized one_user id1
           (User.mk id1 "Test User" "test@example.com" 25 100 None)).
  - exact reachable_one_user.
  - simpl. now left.
  - reflexivity.
Defined.

End Reachable.

(** ** The readers *)

Section Readers.

Import UserCRUD.

Lemma first_such_some {A} (p : A -> bool) (xs : list A) (x : A) :
  first_such p xs = Some x -> In x xs /\ p x = true.
Proof.
  induction xs as [| y r IH]; simpl; [discriminate |].
  destruct (p y) eqn:E.
  - intros [= <-]. split; [now left | exact E].
  - intros H. destruct (IH H). split; [now right | assumption].
Qed.

Lemma first_such_none_inv {A} (p : A -> bool) (xs : list A) :
  first_such p xs = None -> forall x, In x xs -> p x = false.
Proof.
  induction xs as [| y r IH]; simpl; [intros _ x [] |].
  destruct (p y) eqn:E; [discriminate |].
  intros H x [<- | Hx]; [exact E | now apply IH].
Qed.

(** With distinct keys, an entry is what a lookup of its key returns. *)
Lemma In_get (k : string) (u : User.t) (d : Dict.t) :
  Dict.wf d -> In (k, u) d -> Dict.get k d = Some u.
Proof.
  unfold Dict.wf. induction d as [| [k' v'] r IH]; simpl; [intros _ [] |].
  intros Hwf Hin. inversion Hwf as [| ? ? Hnotin Hr]; subst.
  destruct (String.eqb_spec k' k) as [-> | Hne].
  - destruct Hin as [[= ->] | Hin]; [reflexivity |].
    exfalso. apply Hnotin. apply in_map_iff. now exists (k, u).
  - destruct Hin as [[= -> ->] | Hin]; [contradiction | now apply IH].
Qed.

(** X6. [get_by_email] never raises and never changes the manager.  An
    entity it returns is stored and its stored email is the trimmed and
    lowercased query; when it returns [None], no stored entity has that
    email. *)
Theorem X6_get_by_email_sound_and_complete (s : t) (q : string) :
  after (get_by_email q) s = s /\
  match result (get_by_email q) s with
  | inr (Some u) =>
      (exists k, In (k, u) (_users s)) /\ User.email u = Py.strip_lower q
  | inr None =>
      forall k u, In (k, u) (_users s) -> User.email u <> Py.strip_lower q
  | inl _ => False
  end.
Proof.
  split; [reflexivity |].
  unfold result, get_by_email, bind, users, ret. simpl.
  change (Py.lower (Py.strip q)) with (Py.strip_lower q).
  destruct (first_such _ _) as [u |] eqn:E.
  - apply first_such_some in E as [Hin Hp]. split.
    + apply in_map_iff in Hin as ([k x] & <- & Hin). now exists k.
    + now apply String.eqb_eq.
  - intros k u Hin. apply String.eqb_neq.
    apply (first_such_none_inv _ _ E u).
    apply in_map_iff. now exists (k, u).
Qed.

(** X7. In a reachable manager, the entity [get_by_email] returns is the
    one [get_by_id] returns for its id. *)
Theorem X7_get_by_email_then_get_by_id (s : t) (q : string) (u : User.t) :
  reachable s ->
  result (get_by_email q) s = inr (Some u) ->
  result (get_by_id (User.id u)) s = inr (Some u).
Proof.
  intros Hr. unfold result, get_by_email, get_by_id, bind, users, ret. simpl.
  intros [= E]. apply first_such_some in E as [Hin _].
  apply in_map_iff in Hin as ([k x] & <- & Hin). simpl.
  rewrite (reachable_ids s k x Hr Hin).
  f_equal. apply In_get; [now apply reachable_wf | exact Hin].
Qed.

Lemma X7_witness :
  result (get_by_id id1) one_user
  = inr (Some (User.mk id1 "Test User" "test@example.com" 25 100 None)).
Proof.
  apply (X7_get_by_email_then_get_by_id one_user " TEST@example.com "
           (User.mk id1 "Test User" "test@example.com" 25 100 None)).
  - exact reachable_one_user.
  - reflexivity.
Defined.

(** X8. In a reachable manager, [get_all] returns exactly the entities
    that [get_by_id] returns for their own id, each of them once. *)
Theorem X8_get_all_agrees_with_get_by_id (s : t) :
  reachable s ->
  exists l,
    result get_all s = inr l /\ NoDup l /\
    forall u, In u l <-> result (get_by_id (User.id u)) s = inr (Some u).
Proof.
  intros Hr. exists (Dict.values (_users s)).
  pose proof (reachable_wf s Hr) as Hwf.
  split; [reflexivity |]. split.
  - unfold Dict.wf, Dict.keys in Hwf. unfold Dict.values.
    assert (Hid : forall kv, In kv (_users s) -> fst kv = User.id (snd kv)).
    { intros [k u] Hin. symmetry. now apply (reachable_ids s). }
    revert Hwf Hid. generalize (_users s) as d.
    induction d as [| [k u] r IH]; simpl; intros Hwf Hid; [constructor |].
    inversion Hwf as [| ? ? Hnotin Hr']; subst.
    constructor; [| apply IH; auto].
    intros Hin. apply Hnotin. apply in_map_iff in Hin as ([k' u'] & Hu & Hin).
    simpl in Hu. subst u'. apply in_map_iff. exists (k', u).
    split; [| exact Hin].
    pose proof (Hid (k', u) (or_intror Hin)) as H1.
    pose proof (Hid (k, u) (or_introl eq_refl)) as H2.
    simpl in *. congruence.
  - intros u. unfold result, get_by_id, bind, users, ret. simpl. split.
    + intros Hin. apply in_map_iff in Hin as ([k x] & <- & Hin). simpl.
      rewrite (reachable_ids s k x Hr Hin). f_equal. now apply In_get.
    + intros [= Hget]. now apply (get_In_values (User.id u)).
Qed.

Lemma X8_witness :
  exists l,
    result get_all two_users = inr l /\ NoDup l /\
    forall u, In u l <->
              result (get_by_id (User.id u)) two_users = inr (Some u).
Proof.
  apply (X8_get_all_agrees_with_get_by_id two_users).
  now exists [Create 1 100 "User 1" "user1@example.com" 25;
              Create 2 200 "User 2" "user2@example.com" 30].
Defined.

End Readers.

(** ** What a call leaves alone *)

Section Frames.

Import UserCRUD.

Lemma get_set_other (k k' : string) (v : User.t) (d : Dict.t) :
  k' <> k -> Dict.get k' (Dict.set k v d) = Dict.get k' d.
Proof.
  intros Hne. induction d as [| [k0 v0] r IH]; simpl.
  - destruct (String.eqb_spec k k'); [congruence | reflexivity].
  - destruct (String.eqb_spec k0 k) as [-> | H0]; simpl.
    + destruct (String.eqb_spec k k'); [congruence | reflexivity].
    + now rewrite IH.
Qed.

Lemma get_del_other (k k' : string) (d : Dict.t) :
  k' <> k -> Dict.get k' (Dict.del k d) = Dict.get k' d.
Proof.
  intros Hne. induction d as [| [k0 v0] r IH]; simpl; [reflexivity |].
  destruct (String.eqb_spec k0 k) as [-> | H0]; simpl.
  - destruct (String.eqb_spec k k'); [congruence | reflexivity].
  - now rewrite IH.
Qed.

Lemma mem_is_get (k : string) (d : Dict.t) :
  Dict.mem k d = match Dict.get k d with Some _ => true | None => false end.
Proof.
  induction d as [| [k0 v0] r IH]; simpl; [reflexivity |].
  now destruct (String.eqb k0 k).
Qed.

(** A new key goes last. *)
Lemma set_fresh (k : string) (v : User.t) (d : Dict.t) :
  Dict.mem k d = false -> Dict.set k v d = (d ++ [(k, v)])%list.
Proof.
  induction d as [| [k0 v0] r IH]; simpl; [reflexivity |].
  destruct (String.eqb k0 k); simpl; [discriminate |].
  intros H. now rewrite IH.
Qed.

(** An old key keeps its place, and the keys stay as they are. *)
Lemma keys_set_present (k : string) (v : User.t) (d : Dict.t) :
  Dict.mem k d = true -> Dict.keys (Dict.set k v d) = Dict.keys d.
Proof. intros H. now rewrite keys_set, H. Qed.

(** What [delete] leaves behind, in one piece. *)
Lemma delete_after (user_id : string) (s : t) :
  after (delete user_id) s = mk (Dict.del user_id (_users s)).
Proof.
  unfold after, delete, bind, users, set_users, ret.
  destruct (Dict.mem user_id (_users s)) eqn:E; simpl; [reflexivity |].
  rewrite <- (eta s) at 1. f_equal. clear -E.
  induction (_users s) as [| [k0 v0] r IH]; simpl in *; [reflexivity |].
  destruct (String.eqb k0 user_id); simpl in *; [discriminate |].
  now rewrite <- IH.
Qed.

(** X9. [delete] of an id stored in a reachable manager returns [True];
    afterwards [get_by_id] of the id returns [None], [exists] answers
    [False] and [count] is one less. *)
Theorem X9_delete_stored (s : t) (user_id : string) :
  reachable s ->
  result (exists_ user_id) s = inr true ->
  result (delete user_id) s = inr true /\
  result (get_by_id user_id) (after (delete user_id) s) = inr None /\
  result (exists_ user_id) (after (delete user_id) s) = inr false /\
  exists n, result count (after (delete user_id) s) = inr n /\
            result count s = inr (S n).
Proof.
  intros Hr [= Hmem].
  apply delete_present; [now apply reachable_wf | exact Hmem].
Qed.

Lemma X9_witness :
  result (delete id1) two_users = inr true /\
  result (get_by_id id1) (after (delete id1) two_users) = inr None /\
  result (exists_ id1) (after (delete id1) two_users) = inr false /\
  exists n, result count (after (delete id1) two_users) = inr n /\
            result count two_users = inr (S n).
Proof.
  apply (X9_delete_stored two_users id1).
  - now exists [Create 1 100 "User 1" "user1@example.com" 25;
                Create 2 200 "User 2" "user2@example.com" 30].
  - reflexivity.
Defined.

(** X10. [delete] of an id that is not stored returns [False] and leaves
    the manager as it is; in a reachable manager this is what a second
    [delete] of the same id does. *)
Theorem X10_delete_twice (s : t) (user_id : string) :
  (result (exists_ user_id) s = inr false ->
   result (delete user_id) s = inr false /\ after (delete user_id) s = s) /\
  (reachable s ->
   result (delete user_id) (after (delete user_id) s) = inr false /\
   after (delete user_id) (after (delete user_id) s)
   = after (delete user_id) s).
Proof.
  split.
  - intros [= Hmem]. now apply delete_absent.
  - intros Hr. apply delete_absent. rewrite delete_after. simpl.
    apply mem_del. now apply reachable_wf.
Qed.

Lemma X10_witness :
  (result (delete id2) one_user = inr false /\
   after (delete id2) one_user = one_user) /\
  (result (delete id1) (after (delete id1) one_user) = inr false /\
   after (delete id1) (after (delete id1) one_user)
   = after (delete id1) one_user).
Proof.
  split.
  - apply (proj1 (X10_delete_twice one_user id2)). reflexivity.
  - apply (proj2 (X10_delete_twice one_user id1)). exact reachable_one_user.
Defined.

(** X11. [delete] touches one key only: for every other id, [get_by_id]
    and [exists] answer after the call as they did before. *)
Theorem X11_delete_leaves_others (s : t) (user_id k : string) :
  k <> user_id ->
  result (get_by_id k) (after (delete user_id) s) = result (get_by_id k) s /\
  result (exists_ k) (after (delete user_id) s) = result (exists_ k) s.
Proof.
  intros Hne. rewrite delete_after.
  unfold result, get_by_id, exists_, bind, users, ret. simpl.
  now rewrite !mem_is_get, (get_del_other user_id k _ Hne).
Qed.

Lemma X11_witness :
  result (get_by_id id2) (after (delete id1) two_users)
  = result (get_by_id id2) two_users /\
  result (exists_ id2) (after (delete id1) two_users)
  = result (exists_ id2) two_users.
Proof.
  apply (X11_delete_leaves_others two_users id1 id2).
  vm_compute. discriminate.
Defined.

(** X12. An [update], whether it returns an entity, returns [None] or
    raises, never adds or removes a key: [count] and every answer of
    [exists] stay as they were, the order of the keys too, and for every
    id other than the target [get_by_id] returns what it returned. *)
Theorem X12_update_leaves_others (s : t) (now : datetime) (user_id : string)
        (kw : User.kwargs) :
  Dict.keys (_users (after (update now user_id kw) s)) = Dict.keys (_users s)
  /\ result count (after (update now user_id kw) s) = result count s
  /\ (forall k, result (exists_ k) (after (update now user_id kw) s)
                = result (exists_ k) s)
  /\ (forall k, k <> user_id ->
                result (get_by_id k) (after (update now user_id kw) s)
                = result (get_by_id k) s).
Proof.
  destruct (update_cases now user_id kw s) as [-> | (a & u' & Hget & Hres)];
    [now repeat split |].
  destruct (update_inr_some _ _ _ _ _ _ Hget Hres) as [_ ->].
  assert (Hmem : Dict.mem user_id (_users s) = true)
    by (apply mem_get; eauto).
  pose proof (keys_set_present user_id u' _ Hmem) as Hkeys.
  unfold result, count, exists_, get_by_id, bind, users, ret. simpl.
  split; [exact Hkeys |]. split; [| split].
  - f_equal. unfold Dict.len.
    rewrite <- (length_map fst (Dict.set user_id u' (_users s))).
    rewrite <- (length_map fst (_users s)). now f_equal.
  - intros k. f_equal.
    destruct (Dict.mem k (_users s)) eqn:E.
    + apply mem_keys. unfold Dict.keys in *. rewrite Hkeys.
      now apply mem_keys.
    + destruct (Dict.mem k (Dict.set user_id u' (_users s))) eqn:E';
        [| reflexivity].
      apply mem_keys in E'. unfold Dict.keys in *. rewrite Hkeys in E'.
      apply mem_keys in E'. congruence.
  - intros k Hne. now rewrite (get_set_other user_id k u' _ Hne).
Qed.

(** X13. A [create] that returns an entity under an id that was not
    stored appends it: [get_all] returns what it returned followed by the
    new entity, [count] is one more, and [get_by_id] of every other id
    returns what it returned. *)
Theorem X13_create_appends (s : t) (uuid4 : N) (now : datetime)
        (name email : string) (age : Z) (u : User.t) :
  result (create uuid4 now name email age) s = inr u ->
  result (exists_ (Py.uuid_str uuid4)) s = inr false ->
  (exists l, result get_all s = inr l /\
             result get_all (after (create uuid4 now name email age) s)
             = inr (l ++ [u])%list) /\
  (exists n, result count s = inr n /\
             result count (after (create uuid4 now name email age) s)
             = inr (S n)) /\
  (forall k, k <> User.id u ->
             result (get_by_id k) (after (create uuid4 now name email age) s)
             = result (get_by_id k) s).
Proof.
  intros Hres [= Hmem].
  destruct (create_inr _ _ _ _ _ _ _ Hres) as [Hc ->].
  assert (Hid : User.id u = Py.uuid_str uuid4).
  { unfold User.create, User.new in Hc. apply post_init_inr in Hc.
    now subst u. }
  rewrite Hid.
  unfold result, get_all, count, get_by_id, bind, users, ret. simpl.
  split; [| split].
  - exists (Dict.values (_users s)). split; [reflexivity |].
    rewrite (set_fresh _ u _ Hmem). unfold Dict.values.
    now rewrite map_app.
  - exists (Dict.len (_users s)). split; [reflexivity |].
    rewrite (set_fresh _ u _ Hmem). unfold Dict.len.
    rewrite length_app. simpl. f_equal. lia.
  - intros k Hne. now rewrite (get_set_other _ k u _ Hne).
Qed.

Lemma X13_witness :
  (exists l, result get_all one_user = inr l /\
             result get_all
               (after (create 2 200 "User 2" "user2@example.com" 30) one_user)
             = inr (l ++ [User.mk id2 "User 2" "user2@example.com" 30 200 None])%list)
  /\
  (exists n, result count one_user = inr n /\
             result count
               (after (create 2 200 "User 2" "user2@example.com" 30) one_user)
             = inr (S n)) /\
  (forall k, k <> id2 ->
             result (get_by_id k)
               (after (create 2 200 "User 2" "user2@example.com" 30) one_user)
             = result (get_by_id k) one_user).
Proof.
  apply (X13_create_appends one_user 2%N 200%Z "User 2" "user2@example.com"
           30%Z (User.mk id2 "User 2" "user2@example.com" 30 200 None));
    reflexivity.
Defined.

End Frames.

(** ** The outcome of create and of update, case by case *)

Section Outcomes.

Import UserCRUD.

(** The loop that raises on the first element that passes a test, as one
    test over the list. *)
Lemma for_each_guard {A} (p : A -> bool) (e : error) (xs : list A) (s : t) :
  for_each xs (fun x => if p x then raise e else ret tt) s
  = (s, if existsb p xs then inl e else inr tt).
Proof.
  induction xs as [| x r IH]; [reflexivity |].
  cbn [for_each existsb]. unfold bind.
  destruct (p x); [reflexivity | exact IH].
Qed.

Lemma create_run (uuid4 : N) (now : datetime) (name email : string)
      (age : Z) (s : t) :
  create uuid4 now name email age s =
  match User.create uuid4 now name email age with
  | inl e => (s, inl e)
  | inr u =>
      if existsb (fun x => String.eqb (User.email x) (User.email u))
                 (Dict.values (_users s))
      then (s, inl (DuplicateEmail (User.email u)))
      else (mk (Dict.set (User.id u) u (_users s)), inr u)
  end.
Proof.
  unfold create, bind, lift, users, set_users, ret.
  destruct (User.create uuid4 now name email age) as [e | u];
    [reflexivity |].
  rewrite (for_each_guard
             (fun x => String.eqb (User.email x) (User.email u))).
  now destruct (existsb _ _).
Qed.

Lemma update_run (now : datetime) (user_id : string) (kw : User.kwargs)
      (s : t) (a : User.t) :
  Dict.get user_id (_users s) = Some a ->
  (forall e, User.kw_email kw = Some e ->
             existsb (clash user_id (Py.strip_lower e)) (_users s) = false) ->
  update now user_id kw s =
  match User.update now a kw with
  | inl e => (s, inl e)
  | inr u' => (mk (Dict.set user_id u' (_users s)), inr (Some u'))
  end.
Proof.
  intros Hget Hfree. unfold update, bind, lift, users, set_users, ret.
  rewrite Hget. destruct (User.kw_email kw) as [e |].
  - change (Py.lower (Py.strip e)) with (Py.strip_lower e).
    rewrite update_loop, for_each_guard, (Hfree e eq_refl).
    now destruct (User.update now a kw).
  - now destruct (User.update now a kw).
Qed.

Lemma acceptable_create (c : creation) :
  acceptable c ->
  User.create (c_uuid4 c) (c_now c) (c_name c) (c_email c) (c_age c)
  = inr (created c).
Proof. intros (Hn & He & Ha). now apply create_valid. Qed.

Lemma unacceptable_create (c : creation) :
  ~ acceptable c ->
  exists why,
    User.create (c_uuid4 c) (c_now c) (c_name c) (c_email c) (c_age c)
    = inl (InvalidField why).
Proof.
  intros Hno. rewrite create_cases.
  destruct (String.eqb_spec (Py.strip (c_name c)) ""); [eauto |].
  destruct (Py.contains "@" (c_email c)) eqn:He; simpl; [| eauto].
  destruct (Z.ltb_spec (c_age c) 0); simpl; [eauto |].
  destruct (c_age c >? 150)%Z eqn:Ha; [eauto |].
  exfalso. apply Hno. repeat split; [assumption .. | lia].
Qed.

End Outcomes.

Section OutcomeTheorems.

Import UserCRUD.

(** X14. The manager's [create], case by case.  Arguments that break a
    rule of the entity raise the factory's error whatever is stored, a
    taken email included.  Acceptable arguments whose trimmed and
    lowercased email is the stored email of some entity raise the error
    of the duplicate email.  Otherwise the call returns the entity the
    factory builds and stores it under its id.  In the first two cases
    the manager is left as it was. *)
Theorem X14_create_by_cases (s : t) (c : creation) :
  let call := create (c_uuid4 c) (c_now c) (c_name c) (c_email c) (c_age c) in
  (~ acceptable c ->
   (exists why, result call s = inl (InvalidField why)) /\ after call s = s)
  /\
  (acceptable c ->
   (exists k x, In (k, x) (_users s) /\
                User.email x = Py.strip_lower (c_email c)) ->
   result call s = inl (DuplicateEmail (Py.strip_lower (c_email c))) /\
   after call s = s)
  /\
  (acceptable c ->
   (forall k x, In (k, x) (_users s) ->
                User.email x <> Py.strip_lower (c_email c)) ->
   result call s = inr (created c) /\
   after call s
   = mk (Dict.set (Py.uuid_str (c_uuid4 c)) (created c) (_users s))).
Proof.
  intros call. unfold call, result, after. rewrite create_run.
  split; [| split].
  - intros Hno. destruct (unacceptable_create c Hno) as [why ->].
    split; [now exists why | reflexivity].
  - intros Hok (k & x & Hin & Hx). rewrite (acceptable_create c Hok).
    replace (existsb _ _) with true; [now split |].
    symmetry. apply existsb_exists. exists x. split.
    + apply in_map_iff. now exists (k, x).
    + rewrite Hx. apply String.eqb_refl.
  - intros Hok Hfree. rewrite (acceptable_create c Hok).
    replace (existsb _ _) with false; [now split |].
    symmetry. apply Bool.not_true_is_false. intros H.
    apply existsb_exists in H as (x & Hin & Hx).
    apply in_map_iff in Hin as ([k x'] & <- & Hin).
    apply String.eqb_eq in Hx. now apply (Hfree k x').
Qed.

Lemma X14_witness :
  ((exists why,
       result (create 2 200 "  " "test@example.com" 30) one_user
       = inl (InvalidField why)) /\
   after (create 2 200 "  " "test@example.com" 30) one_user = one_user) /\
  (result (create 2 200 "Ann" " Test@Example.com" 30) one_user
   = inl (DuplicateEmail (Py.strip_lower " Test@Example.com")) /\
   after (create 2 200 "Ann" " Test@Example.com" 30) one_user = one_user) /\
  (result (create 2 200 "Ann" "ann@example.com" 30) one_user
   = inr (created (mkCreation 2 200 "Ann" "ann@example.com" 30)) /\
   after (create 2 200 "Ann" "ann@example.com" 30) one_user
   = mk (Dict.set id2 (created (mkCreation 2 200 "Ann" "ann@example.com" 30))
                  (_users one_user))).
Proof.
  split; [| split].
  - apply (proj1 (X14_create_by_cases one_user
                    (mkCreation 2 200 "  " "test@example.com" 30))).
    intros (H & _). now apply H.
  - apply (proj1 (proj2 (X14_create_by_cases one_user
                    (mkCreation 2 200 "Ann" " Test@Example.com" 30)))).
    + repeat split; [vm_compute; discriminate | simpl; lia ..].
    + exists id1, (User.mk id1 "Test User" "test@example.com" 25 100 None).
      split; [now left | reflexivity].
  - apply (proj2 (proj2 (X14_create_by_cases one_user
                    (mkCreation 2 200 "Ann" "ann@example.com" 30)))).
    + repeat split; [vm_compute; discriminate | simpl; lia ..].
    + intros k x [[= <- <-] | []]. vm_compute. discriminate.
Defined.

(** X15. The manager's [update], case by case.  For an id that is not
    stored it returns [None].  For a stored id and a supplied email whose
    trimmed and lowercased form is the stored email of an entity under
    another key, it raises the error of the duplicate email, before any
    rule of the entity is looked at.  Otherwise its outcome is that of
    [User.update] on the stored entity: an error is raised as it is, an
    entity is stored under the id and returned.  Only this last outcome
    changes the manager. *)
Theorem X15_update_by_cases (s : t) (now : datetime) (user_id : string)
        (kw : User.kwargs) :
  (Dict.get user_id (_users s) = None ->
   update now user_id kw s = (s, inr None))
  /\
  (forall a e k x,
      Dict.get user_id (_users s) = Some a ->
      User.kw_email kw = Some e ->
      In (k, x) (_users s) -> k <> user_id ->
      User.email x = Py.strip_lower e ->
      update now user_id kw s = (s, inl (DuplicateEmail (Py.strip_lower e))))
  /\
  (forall a,
      Dict.get user_id (_users s) = Some a ->
      (forall e k x, User.kw_email kw = Some e ->
                     In (k, x) (_users s) -> k <> user_id ->
                     User.email x <> Py.strip_lower e) ->
      update now user_id kw s =
      match User.update now a kw with
      | inl err => (s, inl err)
      | inr u' => (mk (Dict.set user_id u' (_users s)), inr (Some u'))
      end).
Proof.
  split; [apply update_absent | split].
  - intros a e k x Hget He Hin Hne Hx.
    apply (update_clash now user_id kw e s a Hget He).
    exists (k, x). split; [exact Hin |]. unfold clash. simpl.
    apply String.eqb_neq in Hne. rewrite Hne, Hx. apply String.eqb_refl.
  - intros a Hget Hfree. apply update_run; [exact Hget |].
    intros e He. apply Bool.not_true_is_false. intros H.
    apply existsb_exists in H as ([k x] & Hin & Hc).
    unfold clash in Hc. simpl in Hc.
    apply Bool.andb_true_iff in Hc as [Hk Hx].
    apply Bool.negb_true_iff, String.eqb_neq in Hk.
    apply String.eqb_eq in Hx. now apply (Hfree e k x).
Qed.

Lemma X15_witness :
  update 300 "no-such-id" (only_age (-1)) two_users
  = (two_users, inr None) /\
  update 300 id1 (User.mkKw None (Some "USER2@example.com") (Some 151%Z) [])
         two_users
  = (two_users, inl (DuplicateEmail (Py.strip_lower "USER2@example.com"))) /\
  update 300 id1 (only_age 151) two_users
  = (two_users, inl (InvalidField AgeOutOfRange)).
Proof.
  split; [| split].
  - apply (proj1 (X15_update_by_cases two_users 300%Z "no-such-id"
                    (only_age (-1)))).
    reflexivity.
  - apply (proj1 (proj2 (X15_update_by_cases two_users 300%Z id1
             (User.mkKw None (Some "USER2@example.com") (Some 151%Z) [])))
             (User.mk id1 "User 1" "user1@example.com" 25 100 None)
             "USER2@example.com" id2
             (User.mk id2 "User 2" "user2@example.com" 30 200 None));
      try reflexivity.
    + simpl. right. now left.
    + vm_compute. discriminate.
  - apply (proj2 (proj2 (X15_update_by_cases two_users 300%Z id1
                           (only_age 151)))
             (User.mk id1 "User 1" "user1@example.com" 25 100 None)).
    + reflexivity.
    + intros e k x Hk. discriminate Hk.
Defined.

End OutcomeTheorems.

(** ** Runs whose updates supply normalized emails *)

Section TidyRuns.

Import UserCRUD.

(** With unique normalized emails, the first entity with the stored email
    of a stored entity is that entity. *)
Lemma first_such_own_email (d : Dict.t) (u : User.t) :
  NoDup (normalized_emails d) ->
  In u (Dict.values d) ->
  first_such (fun x => String.eqb (User.email x) (User.email u))
             (Dict.values d) = Some u.
Proof.
  induction d as [| [k v] r IH]; simpl; [intros _ [] |].
  intros Hu Hin. inversion Hu as [| ? ? Hnotin Hr]; subst.
  destruct (String.eqb_spec (User.email v) (User.email u)) as [Heq | Hne].
  - destruct Hin as [-> | Hin]; [reflexivity |].
    exfalso. apply Hnotin. rewrite Heq. now apply In_normalized_emails.
  - destruct Hin as [-> | Hin]; [congruence | now apply IH].
Qed.

(** A short tidy run: two creations and an update to a normalized
    email. *)
Lemma tidy_example :
  Forall tidy [Create 1 100 "User 1" "user1@example.com" 25;
               Create 2 200 "User 2" "user2@example.com" 30;
               Update 300 id2 (only_email "second@example.com")].
Proof. repeat constructor. Qed.

(** X16. As long as every [update] that supplies an email supplies it
    trimmed and in lower case, every stored email is trimmed and in lower
    case and no two stored entities have the same one, whatever else the
    calls do and whether they succeed or fail. *)
Theorem X16_tidy_runs_keep_emails_unique (cs : list call) :
  Forall tidy cs ->
  emails_normalized (run cs) /\ emails_unique (run cs) /\
  NoDup (map User.email (Dict.values (_users (run cs)))).
Proof.
  intros Ht. destruct (tidy_run_consistent cs Ht) as (_ & _ & Hn & Hu).
  split; [exact Hn |]. split; [exact Hu |].
  unfold emails_unique, normalized_emails in Hu.
  unfold emails_normalized in Hn.
  replace (map User.email (Dict.values (_users (run cs))))
    with (map (fun u => Py.strip_lower (User.email u))
              (Dict.values (_users (run cs)))); [exact Hu |].
  apply map_ext_in. intros u Hin.
  apply in_map_iff in Hin as ([k x] & <- & Hin). now apply (Hn k).
Qed.

Lemma X16_witness :
  let cs := [Create 1 100 "User 1" "user1@example.com" 25;
             Create 2 200 "User 2" "user2@example.com" 30;
             Update 300 id2 (only_email "second@example.com")] in
  emails_normalized (run cs) /\ emails_unique (run cs) /\
  NoDup (map User.email (Dict.values (_users (run cs)))).
Proof. apply X16_tidy_runs_keep_emails_unique. exact tidy_example. Defined.

(** X17. After such a run, every stored entity is the one [get_by_email]
    returns for its email, and for any query that is its email up to
    case and surrounding whitespace. *)
Theorem X17_tidy_get_by_email_finds_each (cs : list call) (k q : string)
        (u : User.t) :
  Forall tidy cs ->
  In (k, u) (_users (run cs)) ->
  Py.strip_lower q = User.email u ->
  result (get_by_email q) (run cs) = inr (Some u).
Proof.
  intros Ht Hin Hq. destruct (tidy_run_consistent cs Ht) as (_ & _ & _ & Hu).
  unfold result, get_by_email, bind, users, ret. simpl.
  change (Py.lower (Py.strip q)) with (Py.strip_lower q). rewrite Hq.
  f_equal. apply first_such_own_email; [exact Hu |].
  apply in_map_iff. now exists (k, u).
Qed.

Lemma X17_witness :
  result (get_by_email "  Second@Example.COM ")
         (run [Create 1 100 "User 1" "user1@example.com" 25;
               Create 2 200 "User 2" "user2@example.com" 30;
               Update 300 id2 (only_email "second@example.com")])
  = inr (Some (User.mk id2 "User 2" "second@example.com" 30 200
                       (Some 300%Z))).
Proof.
  apply (X17_tidy_get_by_email_finds_each _ id2).
  - exact tidy_example.
  - simpl. right. now left.
  - reflexivity.
Defined.

(** X18. After such a run, once a stored entity is deleted,
    [get_by_email] of its email returns [None]. *)
Theorem X18_tidy_delete_frees_email (cs : list call) (user_id : string)
        (u : User.t) :
  Forall tidy cs ->
  result (get_by_id user_id) (run cs) = inr (Some u) ->
  result (get_by_email (User.email u)) (after (delete user_id) (run cs))
  = inr None.
Proof.
  intros Ht [= Hget].
  destruct (tidy_run_consistent cs Ht) as (_ & _ & _ & Hu).
  now apply delete_then_get_by_email.
Qed.

Lemma X18_witness :
  result (get_by_email "second@example.com")
         (after (delete id2)
                (run [Create 1 100 "User 1" "user1@example.com" 25;
                      Create 2 200 "User 2" "user2@example.com" 30;
                      Update 300 id2 (only_email "second@example.com")]))
  = inr None.
Proof.
  apply (X18_tidy_delete_frees_email _ id2
           (User.mk id2 "User 2" "second@example.com" 30 200 (Some 300%Z))).
  - exact tidy_example.
  - reflexivity.
Defined.

(** X19. After such a run, an [update] of one stored entity that supplies
    an email equal, up to case and surrounding whitespace, to the email
    of another stored entity raises the error of the duplicate email and
    leaves the manager as it was, whatever else it supplies. *)
Theorem X19_tidy_update_to_email_of_other (cs : list call) (now : datetime)
        (ida idb : string) (kw : User.kwargs) (e : string) (a b : User.t) :
  Forall tidy cs ->
  result (get_by_id ida) (run cs) = inr (Some a) ->
  result (get_by_id idb) (run cs) = inr (Some b) ->
  idb <> ida ->
  User.kw_email kw = Some e ->
  Py.strip_lower e = Py.strip_lower (User.email b) ->
  result (update now ida kw) (run cs)
  = inl (DuplicateEmail (Py.strip_lower e)) /\
  after (update now ida kw) (run cs) = run cs.
Proof.
  intros Ht [= Ha] [= Hb] Hne He Heq.
  destruct (tidy_run_consistent cs Ht) as (_ & _ & Hn & _).
  pose proof (get_In _ _ _ Hb) as Hin.
  apply (update_to_email_of_other now ida idb kw e _ a b);
    auto. now apply (Hn idb).
Qed.

Lemma X19_witness :
  let s := run [Create 1 100 "User 1" "user1@example.com" 25;
                Create 2 200 "User 2" "user2@example.com" 30;
                Update 300 id2 (only_email "second@example.com")] in
  result (update 400 id1
            (User.mkKw (Some "") (Some " SECOND@example.com") (Some 200%Z) []))
         s
  = inl (DuplicateEmail (Py.strip_lower " SECOND@example.com")) /\
  after (update 400 id1
           (User.mkKw (Some "") (Some " SECOND@example.com") (Some 200%Z) []))
        s
  = s.
Proof.
  apply (X19_tidy_update_to_email_of_other _ 400%Z id1 id2
           (User.mkKw (Some "") (Some " SECOND@example.com") (Some 200%Z) [])
           " SECOND@example.com"
           (User.mk id1 "User 1" "user1@example.com" 25 100 None)
           (User.mk id2 "User 2" "second@example.com" 30 200 (Some 300%Z)));
    try reflexivity.
  - exact tidy_example.
  - vm_compute. discriminate.
Defined.

(** X20. After such a run, an [update] of a stored entity that supplies
    only an email equal to its own up to case and surrounding whitespace
    succeeds: the check for duplicates skips the entity itself.  The
    entity stored and returned has the email exactly as supplied. *)
Theorem X20_tidy_update_to_own_email (cs : list call) (now : datetime)
        (user_id e : string) (a : User.t) :
  Forall tidy cs ->
  result (get_by_id user_id) (run cs) = inr (Some a) ->
  Py.strip_lower e = User.email a ->
  let u' := User.mk (User.id a) (User.name a) e (User.age a)
                    (User.created_at a) (Some now) in
  result (update now user_id (only_email e)) (run cs) = inr (Some u') /\
  result (get_by_id user_id) (after (update now user_id (only_email e))
                                    (run cs))
  = inr (Some u').
Proof.
  intros Ht [= Hget] He u'.
  destruct (tidy_run_consistent cs Ht) as (_ & _ & Hn & Hu).
  pose proof (get_In _ _ _ Hget) as Hin.
  assert (Hr : reachable (run cs)) by now exists cs.
  destruct (valid_fields a (reachable_valid _ _ _ Hr Hin)) as (Hv1 & Hv2 & Hv3).
  assert (Hup : User.update now a (only_email e) = inr u').
  { unfold User.update, only_email, User.new. simpl.
    rewrite post_init_outcome. simpl.
    destruct (String.eqb_spec (Py.strip (User.name a)) ""); [contradiction |].
    rewrite <- (contains_at_strip_lower e), He, Hv2. simpl.
    destruct (Z.ltb_spec (User.age a) 0); [lia |].
    destruct (User.age a >? 150)%Z eqn:E; [lia | reflexivity]. }
  assert (Hrun : update now user_id (only_email e) (run cs)
                 = (mk (Dict.set user_id u' (_users (run cs))),
                    inr (Some u'))).
  { rewrite (update_run now user_id (only_email e) _ a Hget);
      [now rewrite Hup |].
    intros e' [= <-]. apply Bool.not_true_is_false. intros H.
    apply existsb_exists in H as ([k x] & Hx & Hc).
    unfold clash in Hc. simpl in Hc.
    apply Bool.andb_true_iff in Hc as [Hk Heq].
    apply Bool.negb_true_iff, String.eqb_neq in Hk.
    apply String.eqb_eq in Heq.
    apply (unique_other _ user_id k a x Hu Hget Hx Hk).
    now rewrite Heq, strip_lower_idem, He, (Hn user_id a Hin). }
  unfold result, after. rewrite Hrun. simpl. split; [reflexivity |].
  unfold get_by_id, bind, users, ret. simpl. now rewrite get_set_same.
Qed.

Lemma X20_witness :
  let s := run [Create 1 100 "User 1" "user1@example.com" 25;
                Create 2 200 "User 2" "user2@example.com" 30;
                Update 300 id2 (only_email "second@example.com")] in
  let u' := User.mk id1 "User 1" " User1@Example.com" 25 100 (Some 400%Z) in
  result (update 400 id1 (only_email " User1@Example.com")) s
  = inr (Some u') /\
  result (get_by_id id1)
         (after (update 400 id1 (only_email " User1@Example.com")) s)
  = inr (Some u').
Proof.
  apply (X20_tidy_update_to_own_email _ 400%Z id1 " User1@Example.com"
           (User.mk id1 "User 1" "user1@example.com" 25 100 None)).
  - exact tidy_example.
  - reflexivity.
  - reflexivity.
Defined.

End TidyRuns.

(** ** Creations in a row, clearing, and creating again *)

Section Batches.

Import UserCRUD.

Lemma mem_app (k : string) (d1 d2 : Dict.t) :
  Dict.mem k (d1 ++ d2)%list = Dict.mem k d1 || Dict.mem k d2.
Proof.
  induction d1 as [| [k0 v0] r IH]; simpl; [reflexivity |].
  now rewrite IH, Bool.orb_assoc.
Qed.

(** An acceptable creation under a new id and with an email no stored
    entity has is appended. *)
Lemma create_fresh (c : creation) (s : t) :
  acceptable c ->
  Dict.mem (Py.uuid_str (c_uuid4 c)) (_users s) = false ->
  (forall k x, In (k, x) (_users s) ->
               User.email x <> Py.strip_lower (c_email c)) ->
  create (c_uuid4 c) (c_now c) (c_name c) (c_email c) (c_age c) s
  = (mk (_users s ++ [entry c])%list, inr (created c)).
Proof.
  intros Hok Hmem Hfree. rewrite create_run, (acceptable_create c Hok).
  replace (existsb _ _) with false.
  - simpl. now rewrite (set_fresh _ _ _ Hmem).
  - symmetry. apply Bool.not_true_is_false. intros H.
    apply existsb_exists in H as (x & Hin & Hx).
    apply in_map_iff in Hin as ([k x'] & <- & Hin).
    apply String.eqb_eq in Hx. now apply (Hfree k x').
Qed.

Lemma creations_append (cs : list creation) :
  forall s,
    Forall acceptable cs ->
    NoDup (map (fun c => Py.uuid_str (c_uuid4 c)) cs) ->
    NoDup (map (fun c => Py.strip_lower (c_email c)) cs) ->
    (forall c, In c cs ->
               Dict.mem (Py.uuid_str (c_uuid4 c)) (_users s) = false) ->
    (forall c k x, In c cs -> In (k, x) (_users s) ->
                   User.email x <> Py.strip_lower (c_email c)) ->
    _users (fold_left step (map create_call cs) s)
    = (_users s ++ map entry cs)%list.
Proof.
  induction cs as [| c r IH]; intros s Hok Hids Hems Hnew Hfree; simpl.
  - now rewrite app_nil_r.
  - inversion Hok as [| ? ? Hc Hr]; subst.
    inversion Hids as [| ? ? Hid Hids']; subst.
    inversion Hems as [| ? ? Hem Hems']; subst.
    unfold after.
    rewrite (create_fresh c s Hc (Hnew c (or_introl eq_refl))
               (fun k x => Hfree c k x (or_introl eq_refl))).
    simpl. rewrite IH; auto.
    + simpl. now rewrite <- app_assoc.
    + intros c' Hin. cbn [_users].
      rewrite mem_app, (Hnew c' (or_intror Hin)).
      unfold entry. cbn [Dict.mem orb].
      rewrite Bool.orb_false_r. apply String.eqb_neq.
      intros Heq. apply Hid. rewrite Heq.
      now apply (in_map (fun c => Py.uuid_str (c_uuid4 c))).
    + intros c' k x Hin Hx. simpl in Hx.
      apply in_app_or in Hx as [Hx | [[= <- <-] | []]].
      * now apply (Hfree c' k x (or_intror Hin)).
      * simpl. intros Heq. apply Hem. rewrite Heq.
        now apply (in_map (fun c => Py.strip_lower (c_email c))).
Qed.

(** X21. On an empty manager, a row of [create] calls with acceptable
    arguments, distinct drawn ids and emails that stay distinct once
    trimmed and lowercased all succeed: [get_all] then returns the
    entities built, in the order of the calls, [count] is the number of
    calls, and [get_by_id] of each id returns the entity of its call. *)
Theorem X21_creations_in_a_row (cs : list creation) :
  Forall acceptable cs ->
  NoDup (map (fun c => Py.uuid_str (c_uuid4 c)) cs) ->
  NoDup (map (fun c => Py.strip_lower (c_email c)) cs) ->
  result get_all (run (map create_call cs)) = inr (map created cs) /\
  result count (run (map create_call cs)) = inr (List.length cs) /\
  forall c, In c cs ->
            result (get_by_id (Py.uuid_str (c_uuid4 c)))
                   (run (map create_call cs))
            = inr (Some (created c)).
Proof.
  intros Hok Hids Hems.
  assert (Hd : _users (run (map create_call cs)) = map entry cs).
  { unfold run. rewrite creations_append; auto. }
  unfold result, get_all, count, get_by_id, bind, users, ret. simpl.
  rewrite Hd. split; [| split].
  - f_equal. unfold Dict.values. rewrite map_map. reflexivity.
  - f_equal. unfold Dict.len. apply length_map.
  - intros c Hin. f_equal. apply In_get.
    + unfold Dict.wf, Dict.keys. rewrite map_map. exact Hids.
    + now apply (in_map entry).
Qed.

Lemma X21_witness :
  let cs := [mkCreation 1 100 " Ann " "Ann@Example.com" 0;
             mkCreation 2 200 "Bob" " bob@example.com " 150] in
  result get_all (run (map create_call cs)) = inr (map created cs) /\
  result count (run (map create_call cs)) = inr (List.length cs) /\
  forall c, In c cs ->
            result (get_by_id (Py.uuid_str (c_uuid4 c)))
                   (run (map create_call cs))
            = inr (Some (created c)).
Proof.
  apply X21_creations_in_a_row.
  - repeat constructor; simpl; try lia; vm_compute; discriminate.
  - repeat constructor; simpl; try tauto.
    intros [H | []]. vm_compute in H. discriminate.
  - repeat constructor; simpl; try tauto.
    intros [H | []]. vm_compute in H. discriminate.
Defined.

(** X22. [clear] empties any manager: afterwards [count] is 0, [get_all]
    returns nothing, [get_by_id], [exists] and [get_by_email] find
    nothing, and a [create] with acceptable arguments succeeds whatever
    was stored before. *)
Theorem X22_clear_then_create (s : t) (c : creation) :
  acceptable c ->
  result count (after clear s) = inr 0%nat /\
  result get_all (after clear s) = inr [] /\
  (forall k, result (get_by_id k) (after clear s) = inr None /\
             result (exists_ k) (after clear s) = inr false) /\
  (forall q, result (get_by_email q) (after clear s) = inr None) /\
  result (create (c_uuid4 c) (c_now c) (c_name c) (c_email c) (c_age c))
         (after clear s)
  = inr (created c).
Proof.
  intros Hok. repeat split.
  unfold result. rewrite (create_fresh c (after clear s) Hok);
    [reflexivity | reflexivity | intros k x []].
Qed.

Lemma X22_witness :
  let c := mkCreation 3 500 "User 1" "user1@example.com" 25 in
  result count (after clear two_users) = inr 0%nat /\
  result get_all (after clear two_users) = inr [] /\
  (forall k, result (get_by_id k) (after clear two_users) = inr None /\
             result (exists_ k) (after clear two_users) = inr false) /\
  (forall q, result (get_by_email q) (after clear two_users) = inr None) /\
  result (create 3 500 "User 1" "user1@example.com" 25)
         (after clear two_users)
  = inr (created c).
Proof.
  apply (X22_clear_then_create two_users
           (mkCreation 3 500 "User 1" "user1@example.com" 25)).
  repeat split; [vm_compute; discriminate | simpl; lia ..].
Defined.

(** X23. After a run whose updates supply normalized emails, once a
    stored entity is deleted, a [create] with acceptable arguments and an
    email that is the deleted one up to case and surrounding whitespace
    succeeds. *)
Theorem X23_tidy_delete_then_create (cs : list call) (user_id : string)
        (u : User.t) (c : creation) :
  Forall tidy cs ->
  result (get_by_id user_id) (run cs) = inr (Some u) ->
  acceptable c ->
  Py.strip_lower (c_email c) = User.email u ->
  result (create (c_uuid4 c) (c_now c) (c_name c) (c_email c) (c_age c))
         (after (delete user_id) (run cs))
  = inr (created c).
Proof.
  intros Ht [= Hget] Hok Hem.
  destruct (tidy_run_consistent cs Ht) as (_ & _ & Hn & Hu).
  pose proof (delete_then_get_by_email _ _ _ Hu Hget) as Hnone.
  revert Hnone.
  unfold result at 1, get_by_email, bind, users, ret. simpl.
  change (Py.lower (Py.strip (User.email u)))
    with (Py.strip_lower (User.email u)).
  rewrite (Hn user_id u (get_In _ _ _ Hget)). intros [= Hnone].
  unfold result. rewrite create_run, (acceptable_create c Hok).
  replace (existsb _ _) with false; [reflexivity |].
  symmetry. apply Bool.not_true_is_false. intros H.
  apply existsb_exists in H as (x & Hin & Hx). simpl in Hx.
  rewrite Hem in Hx.
  now rewrite (first_such_none_inv _ _ Hnone x Hin) in Hx.
Qed.

Lemma X23_witness :
  result (create 3 500 "Again" " USER2@example.com" 31)
         (after (delete id2)
                (run [Create 1 100 "User 1" "user1@example.com" 25;
                      Create 2 200 "User 2" "user2@example.com" 30]))
  = inr (created (mkCreation 3 500 "Again" " USER2@example.com" 31)).
Proof.
  apply (X23_tidy_delete_then_create
           [Create 1 100 "User 1" "user1@example.com" 25;
            Create 2 200 "User 2" "user2@example.com" 30]
           id2 (User.mk id2 "User 2" "user2@example.com" 30 200 None)
           (mkCreation 3 500 "Again" " USER2@example.com" 31)).
  - repeat constructor.
  - reflexivity.
  - repeat split; [vm_compute; discriminate | simpl; lia ..].
  - reflexivity.
Defined.

End Batches.
